(** * gocbr: a circuit breaker, embedded from [breaker.go]

    The breaker is a three-state machine (closed / half-open / open) driven by
    outcome counters, a generation number and an expiry instant.  Every method
    of the Go type runs under the breaker's mutex, so a method is one atomic
    step: it is embedded as a function from the breaker before the call to the
    value returned, the breaker after the call and the observer calls made.

    Conventions of the embedding:
    - [uint32] and [uint64] fields are integers in [Z]; [x++] is written with
      its wrap-around ([uint32_inc], [uint64_inc]);
    - [time.Time] is the number of nanoseconds since Go's zero instant, so the
      zero [time.Time] is [0]; [time.Duration] is a number of nanoseconds;
    - [time.Now()] is an argument [now] of each method that reads the clock;
    - the [OnStateChange] callback is a flag (registered or nil) and each
      invocation is recorded, with its arguments, in the output of the step. *)

From Stdlib Require Import ZArith List String Bool Lia.
Import ListNotations.
Local Open Scope Z_scope.

(** ** Machine integers *)

Definition uint32_inc (x : Z) : Z := (x + 1) mod 2 ^ 32.
Definition uint64_inc (x : Z) : Z := (x + 1) mod 2 ^ 64.

Definition is_uint32 (x : Z) : Prop := 0 <= x < 2 ^ 32.
Definition is_uint64 (x : Z) : Prop := 0 <= x < 2 ^ 64.

(** ** Time *)

Module Time.
Definition t : Type := Z.
Definition zero : t := 0.
Definition IsZero (x : t) : bool := x =? 0.
Definition Before (x y : t) : bool := x <? y.
Definition Add (x : t) (d : Z) : t := x + d.
End Time.

Definition Second : Z := 1000000000.

Definition defaultInterval : Z := 0 * Second.
Definition defaultTimeout : Z := 60 * Second.
Definition defaultMaxRequests : Z := 1.
Definition defaultMaxConsecutiveFailures : Z := 5.

(** ** States and errors *)

Inductive State : Type :=
| StateClosed
| StateHalfOpen
| StateOpen.

Definition State_eqb (a b : State) : bool :=
  match a, b with
  | StateClosed, StateClosed => true
  | StateHalfOpen, StateHalfOpen => true
  | StateOpen, StateOpen => true
  | _, _ => false
  end.

Inductive error : Type :=
| ErrTooManyRequests
| ErrOpenState.

(** ** Counts *)

Record Counts : Type := mkCounts {
  Requests : Z;
  TotalSuccesses : Z;
  TotalFailures : Z;
  ConsecutiveSuccesses : Z;
  ConsecutiveFailures : Z
}.

Definition Counts_onRequest (c : Counts) : Counts :=
  mkCounts (uint32_inc (Requests c)) (TotalSuccesses c) (TotalFailures c)
           (ConsecutiveSuccesses c) (ConsecutiveFailures c).

Definition Counts_onSuccess (c : Counts) : Counts :=
  mkCounts (Requests c) (uint32_inc (TotalSuccesses c)) (TotalFailures c)
           (uint32_inc (ConsecutiveSuccesses c)) 0.

Definition Counts_onFailure (c : Counts) : Counts :=
  mkCounts (Requests c) (TotalSuccesses c) (uint32_inc (TotalFailures c))
           0 (uint32_inc (ConsecutiveFailures c)).

Definition Counts_clear (c : Counts) : Counts := mkCounts 0 0 0 0 0.

Definition defaultReadyToTrip (counts : Counts) : bool :=
  defaultMaxConsecutiveFailures <? ConsecutiveFailures counts.

(** ** Configuration and breaker *)

Record Config : Type := mkConfig {
  Name : string;
  MaxRequests : Z;
  Interval : Z;
  Timeout : Z;
  ReadyToTrip : option (Counts -> bool);
  OnStateChange : bool
}.

Record CircuitBreaker : Type := mkCircuitBreaker {
  name : string;
  maxRequests : Z;
  interval : Z;
  timeout : Z;
  readyToTrip : Counts -> bool;
  onStateChange : bool;
  state : State;
  generation : Z;
  counts : Counts;
  expiry : Time.t
}.

Definition with_state (s : State) (cb : CircuitBreaker) : CircuitBreaker :=
  mkCircuitBreaker (name cb) (maxRequests cb) (interval cb) (timeout cb)
    (readyToTrip cb) (onStateChange cb) s (generation cb) (counts cb) (expiry cb).

Definition with_generation (g : Z) (cb : CircuitBreaker) : CircuitBreaker :=
  mkCircuitBreaker (name cb) (maxRequests cb) (interval cb) (timeout cb)
    (readyToTrip cb) (onStateChange cb) (state cb) g (counts cb) (expiry cb).

Definition with_counts (c : Counts) (cb : CircuitBreaker) : CircuitBreaker :=
  mkCircuitBreaker (name cb) (maxRequests cb) (interval cb) (timeout cb)
    (readyToTrip cb) (onStateChange cb) (state cb) (generation cb) c (expiry cb).

Definition with_expiry (e : Time.t) (cb : CircuitBreaker) : CircuitBreaker :=
  mkCircuitBreaker (name cb) (maxRequests cb) (interval cb) (timeout cb)
    (readyToTrip cb) (onStateChange cb) (state cb) (generation cb) (counts cb) e.

(** ** The monad of breaker methods

    A method reads and writes the receiver and may call the observer. *)

Record Notification : Type := mkNotification {
  n_name : string;
  n_from : State;
  n_to : State
}.

Record Out (A : Type) : Type := mkOut {
  value : A;
  after : CircuitBreaker;
  fired : list Notification
}.
Arguments mkOut {A} _ _ _.
Arguments value {A} _.
Arguments after {A} _.
Arguments fired {A} _.

Definition M (A : Type) : Type := CircuitBreaker -> Out A.

Definition ret {A : Type} (a : A) : M A := fun cb => mkOut a cb [].

Definition bind {A B : Type} (m : M A) (k : A -> M B) : M B :=
  fun cb =>
    match m cb with
    | mkOut a cb1 l1 =>
        match k a cb1 with
        | mkOut b cb2 l2 => mkOut b cb2 (l1 ++ l2)
        end
    end.

Definition get : M CircuitBreaker := fun cb => mkOut cb cb [].
Definition modify (f : CircuitBreaker -> CircuitBreaker) : M unit :=
  fun cb => mkOut tt (f cb) [].
Definition notify (n : Notification) : M unit := fun cb => mkOut tt cb [n].

Declare Scope cb_scope.
Delimit Scope cb_scope with cb.
Notation "x <- m ;; k" := (bind m (fun x => k))
  (at level 61, m at next level, right associativity) : cb_scope.
Notation "m ;;; k" := (bind m (fun _ => k))
  (at level 61, right associativity) : cb_scope.
Local Open Scope cb_scope.

(** ** Methods of [CircuitBreaker] *)

Module CB.

Definition reset (now : Time.t) : M unit :=
  modify (fun cb => with_generation (uint64_inc (generation cb)) cb) ;;;
  modify (fun cb => with_counts (Counts_clear (counts cb)) cb) ;;;
  cb <- get ;;
  match state cb with
  | StateClosed =>
      if interval cb =? 0
      then modify (with_expiry Time.zero)
      else modify (with_expiry (Time.Add now (interval cb)))
  | StateOpen => modify (with_expiry (Time.Add now (timeout cb)))
  | StateHalfOpen => modify (with_expiry Time.zero)
  end.

Definition setState (s : State) (now : Time.t) : M unit :=
  cb <- get ;;
  if State_eqb (state cb) s then ret tt
  else
    let prev := state cb in
    modify (with_state s) ;;;
    reset now ;;;
    cb <- get ;;
    if onStateChange cb
    then notify (mkNotification (name cb) prev s)
    else ret tt.

Definition currentState (now : Time.t) : M (State * Z) :=
  cb <- get ;;
  match state cb with
  | StateClosed =>
      if negb (Time.IsZero (expiry cb)) && Time.Before (expiry cb) now
      then reset now else ret tt
  | StateOpen =>
      if Time.Before (expiry cb) now
      then setState StateHalfOpen now else ret tt
  | StateHalfOpen => ret tt
  end ;;;
  cb <- get ;;
  ret (state cb, generation cb).

Definition onSuccess (s : State) (now : Time.t) : M unit :=
  match s with
  | StateClosed =>
      modify (fun cb => with_counts (Counts_onSuccess (counts cb)) cb)
  | StateHalfOpen =>
      modify (fun cb => with_counts (Counts_onSuccess (counts cb)) cb) ;;;
      cb <- get ;;
      if maxRequests cb <=? ConsecutiveSuccesses (counts cb)
      then setState StateClosed now else ret tt
  | StateOpen => ret tt
  end.

Definition onFailure (s : State) (now : Time.t) : M unit :=
  match s with
  | StateClosed =>
      modify (fun cb => with_counts (Counts_onFailure (counts cb)) cb) ;;;
      cb <- get ;;
      if readyToTrip cb (counts cb)
      then setState StateOpen now else ret tt
  | StateHalfOpen => setState StateOpen now
  | StateOpen => ret tt
  end.

Definition beforeRequest (now : Time.t) : M (Z * option error) :=
  sg <- currentState now ;;
  cb <- get ;;
  if State_eqb (fst sg) StateOpen then ret (snd sg, Some ErrOpenState)
  else if State_eqb (fst sg) StateHalfOpen
          && (maxRequests cb <=? Requests (counts cb))
  then ret (snd sg, Some ErrTooManyRequests)
  else
    modify (fun cb => with_counts (Counts_onRequest (counts cb)) cb) ;;;
    ret (snd sg, None).

Definition afterRequest (before : Z) (success : bool) (now : Time.t)
  : M unit :=
  sg <- currentState now ;;
  if negb (snd sg =? before) then ret tt
  else if success then onSuccess (fst sg) now
  else onFailure (fst sg) now.

(** The exported methods.  [BeforeRequest] drops the generation returned by
    [beforeRequest]; [OnSuccess] and [OnFailure] pass [cb.generation] as it is
    when the report is made.  The Go code reads that field before taking the
    mutex; here the read and the locked [afterRequest] are one step, and the
    properties of reports are also stated for [afterRequest] with an arbitrary
    stamp, which covers a read separated from the locked part. *)

Definition Name : M string := cb <- get ;; ret (name cb).

Definition State (now : Time.t) : M State :=
  sg <- currentState now ;; ret (fst sg).

Definition Counts : M Counts := cb <- get ;; ret (counts cb).

Definition BeforeRequest (now : Time.t) : M (option error) :=
  ge <- beforeRequest now ;; ret (snd ge).

Definition OnSuccess (now : Time.t) : M unit :=
  cb <- get ;; afterRequest (generation cb) true now.

Definition OnFailure (now : Time.t) : M unit :=
  cb <- get ;; afterRequest (generation cb) false now.

End CB.

(** [new(CircuitBreaker)]: every field at its zero value. *)
Definition zeroCircuitBreaker : CircuitBreaker :=
  mkCircuitBreaker EmptyString 0 0 0 (fun _ => false) false
    StateClosed 0 (mkCounts 0 0 0 0 0) Time.zero.

Definition NewCircuitBreaker (st : Config) (now : Time.t) : CircuitBreaker :=
  let cb :=
    mkCircuitBreaker
      (Name st)
      (if MaxRequests st =? 0 then defaultMaxRequests else MaxRequests st)
      (if Interval st <=? 0 then defaultInterval else Interval st)
      (if Timeout st <=? 0 then defaultTimeout else Timeout st)
      (match ReadyToTrip st with
       | Some f => f
       | None => defaultReadyToTrip
       end)
      (OnStateChange st)
      (state zeroCircuitBreaker)
      (generation zeroCircuitBreaker)
      (counts zeroCircuitBreaker)
      (expiry zeroCircuitBreaker) in
  after (CB.reset now cb).

(** ** Sequences of calls

    A client of the breaker makes a sequence of calls of the exported methods,
    each at the instant the clock shows when the call takes the mutex. *)

Inductive op : Type :=
| OpName
| OpState (now : Time.t)
| OpCounts
| OpBeforeRequest (now : Time.t)
| OpOnSuccess (now : Time.t)
| OpOnFailure (now : Time.t).

Inductive reply : Type :=
| RName (s : string)
| RState (s : State)
| RCounts (c : Counts)
| RAdmission (e : option error)
| RDone.

Definition step (o : op) : M reply :=
  match o with
  | OpName => s <- CB.Name ;; ret (RName s)
  | OpState now => s <- CB.State now ;; ret (RState s)
  | OpCounts => c <- CB.Counts ;; ret (RCounts c)
  | OpBeforeRequest now => e <- CB.BeforeRequest now ;; ret (RAdmission e)
  | OpOnSuccess now => CB.OnSuccess now ;;; ret RDone
  | OpOnFailure now => CB.OnFailure now ;;; ret RDone
  end.

Fixpoint run (ops : list op) : M (list reply) :=
  match ops with
  | [] => ret []
  | o :: rest => r <- step o ;; rs <- run rest ;; ret (r :: rs)
  end.

Definition exec (ops : list op) (cb : CircuitBreaker) : CircuitBreaker :=
  after (run ops cb).

(** Breakers a client can hold: built by [NewCircuitBreaker] from a
    configuration whose fields fit their Go types, then used through the
    exported methods. *)

Definition Config_valid (st : Config) : Prop :=
  is_uint32 (MaxRequests st)
  /\ - 2 ^ 63 <= Interval st < 2 ^ 63
  /\ - 2 ^ 63 <= Timeout st < 2 ^ 63.

Inductive reachable : CircuitBreaker -> Prop :=
| reachable_new : forall st now,
    Config_valid st -> reachable (NewCircuitBreaker st now)
| reachable_step : forall cb o,
    reachable cb -> reachable (after (step o cb)).

(** ** Definitions used in the statements *)

(** One of the two streak counters is zero. *)
Definition streaks_exclusive (c : Counts) : Prop :=
  ConsecutiveSuccesses c = 0 \/ ConsecutiveFailures c = 0.

(** The breaker after a step is in the closed state, one generation later,
    with counts [c], and the step did not call the observer. *)
Definition rolled_over {A : Type} (cb : CircuitBreaker) (c : Counts)
           (r : Out A) : Prop :=
  state (after r) = StateClosed
  /\ generation (after r) = uint64_inc (generation cb)
  /\ counts (after r) = c
  /\ fired r = [].

(** The reply of an admission check that succeeded. *)
Definition admitted (r : reply) : bool :=
  match r with
  | RAdmission None => true
  | _ => false
  end.

(** The number of admissions granted by the calls [ops], counted for as long
    as the breaker is in the half-open state after each call. *)
Fixpoint probes_admitted (ops : list op) (cb : CircuitBreaker) : nat :=
  match ops with
  | [] => 0%nat
  | o :: rest =>
      let r := step o cb in
      ((if admitted (value r) then 1 else 0)
       + match state (after r) with
         | StateHalfOpen => probes_admitted rest (after r)
         | _ => 0
         end)%nat
  end.

(** A sequence of calls follows the protocol when every outcome report
    answers an admitted request that has not reported yet; [inflight] is the
    number of such requests. *)
Fixpoint follows_protocol (inflight : nat) (ops : list op)
         (cb : CircuitBreaker) : bool :=
  match ops with
  | [] => true
  | o :: rest =>
      let r := step o cb in
      match o with
      | OpOnSuccess _ | OpOnFailure _ =>
          match inflight with
          | O => false
          | S n => follows_protocol n rest (after r)
          end
      | _ =>
          follows_protocol
            (if admitted (value r) then S inflight else inflight)
            rest (after r)
      end
  end.

(** Every counter fits its Go type. *)
Definition counts_in_range (c : Counts) : Prop :=
  is_uint32 (Requests c) /\ is_uint32 (TotalSuccesses c)
  /\ is_uint32 (TotalFailures c) /\ is_uint32 (ConsecutiveSuccesses c)
  /\ is_uint32 (ConsecutiveFailures c).

(** What construction establishes and every exported call preserves: the
    normalised settings, the ranges of the fields, and the probe budget not
    being exceeded in the half-open state. *)
Definition breaker_ok (cb : CircuitBreaker) : Prop :=
  1 <= maxRequests cb < 2 ^ 32
  /\ 0 <= interval cb
  /\ 0 < timeout cb
  /\ is_uint64 (generation cb)
  /\ counts_in_range (counts cb)
  /\ (state cb = StateHalfOpen -> Requests (counts cb) <= maxRequests cb).

(** ** Closed forms of [reset], [setState] and [currentState] *)

(** The expiry [reset] computes for a breaker whose state is [s]. *)
Definition expiry_from (s : State) (now : Time.t) (cb : CircuitBreaker)
  : Time.t :=
  match s with
  | StateClosed => if interval cb =? 0 then 0 else now + interval cb
  | StateOpen => now + timeout cb
  | StateHalfOpen => 0
  end.

(** The breaker after [reset] when its state is [s]. *)
Definition fresh (s : State) (now : Time.t) (cb : CircuitBreaker)
  : CircuitBreaker :=
  mkCircuitBreaker (name cb) (maxRequests cb) (interval cb) (timeout cb)
    (readyToTrip cb) (onStateChange cb) s (uint64_inc (generation cb))
    (mkCounts 0 0 0 0 0) (expiry_from s now cb).

(** The observer calls of a transition. *)
Definition announce (cb : CircuitBreaker) (from to : State)
  : list Notification :=
  if onStateChange cb then [mkNotification (name cb) from to] else [].

(** Whether the breaker's time-based condition fires at [now]. *)
Definition due (now : Time.t) (cb : CircuitBreaker) : bool :=
  match state cb with
  | StateClosed => negb (expiry cb =? 0) && (expiry cb <? now)
  | StateOpen => expiry cb <? now
  | StateHalfOpen => false
  end.

(** ** Sample breakers

    The configuration of the repository's test, with a probe budget of two,
    and breakers reached from it. *)

Definition sample_config : Config :=
  mkConfig "random-service" 2 (1 * Second) (1 * Second)
           (Some (fun c => 3 <=? ConsecutiveFailures c)) true.

Definition t0 : Time.t := 1000 * Second.

Definition sample_closed : CircuitBreaker := NewCircuitBreaker sample_config t0.

(** One request succeeded in the first window. *)
Definition sample_idle : CircuitBreaker :=
  exec [OpBeforeRequest (t0 + 1); OpOnSuccess (t0 + 2)] sample_closed.

(** Two requests failed and a third is admitted. *)
Definition sample_two_failures : CircuitBreaker :=
  exec [OpBeforeRequest (t0 + 1); OpOnFailure (t0 + 2);
        OpBeforeRequest (t0 + 3); OpOnFailure (t0 + 4);
        OpBeforeRequest (t0 + 5)] sample_closed.

(** Three requests failed: the breaker is open. *)
Definition sample_open : CircuitBreaker :=
  exec [OpBeforeRequest (t0 + 1); OpOnFailure (t0 + 2);
        OpBeforeRequest (t0 + 3); OpOnFailure (t0 + 4);
        OpBeforeRequest (t0 + 5); OpOnFailure (t0 + 6)] sample_closed.

(** The open breaker read after its timeout: half-open. *)
Definition sample_half_open : CircuitBreaker :=
  exec [OpState (t0 + 2 * Second)] sample_open.

(** One probe succeeded and a second is admitted. *)
Definition sample_one_probe_ok : CircuitBreaker :=
  exec [OpBeforeRequest (t0 + 3 * Second); OpOnSuccess (t0 + 3 * Second + 1);
        OpBeforeRequest (t0 + 3 * Second + 2)] sample_half_open.

(** The breaker after a slow request was admitted in generation 1, three
    other requests failed and opened the breaker (generation 2), and a state
    read after the timeout moved it to half-open (generation 3). *)
Definition sample_slow_request : CircuitBreaker :=
  exec [OpBeforeRequest (t0 + 1);
        OpBeforeRequest (t0 + 2); OpOnFailure (t0 + 3);
        OpBeforeRequest (t0 + 4); OpOnFailure (t0 + 5);
        OpBeforeRequest (t0 + 6); OpOnFailure (t0 + 7);
        OpState (t0 + 2 * Second)] sample_closed.

(** The calls of two requests: the first is admitted, the second is admitted
    after the interval has elapsed, then both report success. *)
Definition overlapping_requests : list op :=
  [OpBeforeRequest (t0 + 1);
   OpBeforeRequest (t0 + 2 * Second);
   OpOnSuccess (t0 + 2 * Second + 1);
   OpOnSuccess (t0 + 2 * Second + 2)].

(** ** Definitions used in the further properties *)

(** The outcome of [currentState] by cases: nothing is due, the closed window
    rolls over, or the open timeout has elapsed. *)
Definition resolve (now : Time.t) (cb : CircuitBreaker) : Out (State * Z) :=
  if due now cb then
    match state cb with
    | StateClosed =>
        mkOut (StateClosed, uint64_inc (generation cb))
              (fresh StateClosed now cb) []
    | StateOpen =>
        mkOut (StateHalfOpen, uint64_inc (generation cb))
              (fresh StateHalfOpen now cb)
              (announce cb StateOpen StateHalfOpen)
    | StateHalfOpen => mkOut (state cb, generation cb) cb []
    end
  else mkOut (state cb, generation cb) cb [].

(** Two breakers have the same settings. *)
Definition same_config (a b : CircuitBreaker) : Prop :=
  name a = name b
  /\ maxRequests a = maxRequests b
  /\ interval a = interval b
  /\ timeout a = timeout b
  /\ readyToTrip a = readyToTrip b
  /\ onStateChange a = onStateChange b.

(** The changes of state a call [o] can make. *)
Definition edge_allowed (o : op) (a b : State) : bool :=
  State_eqb a b
  || match o, a, b with
     | OpState _, StateOpen, StateHalfOpen => true
     | OpBeforeRequest _, StateOpen, StateHalfOpen => true
     | OpOnSuccess _, StateOpen, StateHalfOpen => true
     | OpOnSuccess _, StateHalfOpen, StateClosed => true
     | OpOnFailure _, StateOpen, StateHalfOpen => true
     | OpOnFailure _, StateClosed, StateOpen => true
     | OpOnFailure _, StateHalfOpen, StateOpen => true
     | _, _, _ => false
     end.

(** Calls other than outcome reports. *)
Definition no_report (o : op) : bool :=
  match o with
  | OpOnSuccess _ | OpOnFailure _ => false
  | _ => true
  end.

(** The expiry is unset in the half-open state, and in the closed state when
    the interval is disabled. *)
Definition expiry_unset_ok (cb : CircuitBreaker) : Prop :=
  (state cb = StateHalfOpen -> expiry cb = 0)
  /\ (state cb = StateClosed -> interval cb = 0 -> expiry cb = 0).

(** Requests that are admitted and then fail, one after the other; each pair
    holds the instant of the admission check and the instant of the report. *)
Definition failing_requests (nows : list (Time.t * Time.t)) : list op :=
  flat_map (fun p => [OpBeforeRequest (fst p); OpOnFailure (snd p)]) nows.

(** Requests that are admitted and then succeed, one after the other. *)
Definition succeeding_requests (nows : list (Time.t * Time.t)) : list op :=
  flat_map (fun p => [OpBeforeRequest (fst p); OpOnSuccess (snd p)]) nows.

(** A configuration that leaves every setting to its default. *)
Definition default_config : Config := mkConfig "default" 0 0 0 None false.

(** The streaks do not exceed the totals, and the totals do not exceed [n]. *)
Definition streaks_bounded (n : Z) (c : Counts) : Prop :=
  0 <= ConsecutiveSuccesses c <= TotalSuccesses c
  /\ TotalSuccesses c <= n
  /\ 0 <= ConsecutiveFailures c <= TotalFailures c
  /\ TotalFailures c <= n.

(** ** The two-step protocol with stamped reports

    [beforeRequest] returns the generation in which a request is admitted
    and [afterRequest] takes such a generation.  A client that keeps the
    generation of each admitted request and hands it back with the outcome
    makes the calls below; [pending] holds the generations of the requests
    admitted and not yet reported, the latest first. *)

Inductive call : Type :=
| Admit (now : Time.t)
| Report (i : nat) (success : bool) (now : Time.t)
| Read (now : Time.t).

(** The list [l] without its element of index [i]. *)
Definition without (i : nat) (l : list Z) : list Z :=
  firstn i l ++ skipn (S i) l.

(** One call; a report for a request that is not pending is not made. *)
Definition stamped_step (c : call) (cb : CircuitBreaker) (pending : list Z)
  : CircuitBreaker * list Z :=
  match c with
  | Admit now =>
      let r := CB.beforeRequest now cb in
      match snd (value r) with
      | None => (after r, fst (value r) :: pending)
      | Some _ => (after r, pending)
      end
  | Report i success now =>
      match nth_error pending i with
      | Some before =>
          (after (CB.afterRequest before success now cb), without i pending)
      | None => (cb, pending)
      end
  | Read now => (after (CB.State now cb), pending)
  end.

Fixpoint stamped_run (calls : list call) (cb : CircuitBreaker)
         (pending : list Z) : CircuitBreaker * list Z :=
  match calls with
  | [] => (cb, pending)
  | c :: rest =>
      stamped_run rest (fst (stamped_step c cb pending))
                  (snd (stamped_step c cb pending))
  end.

(** The outcomes counted do not exceed the requests counted, with room for
    the pending requests of the current generation; no pending request is of
    a later generation; [r] bounds [Requests] and [g] the generation. *)
Definition stamped_inv (r g : Z) (cb : CircuitBreaker) (pending : list Z)
  : Prop :=
  0 <= TotalSuccesses (counts cb)
  /\ 0 <= TotalFailures (counts cb)
  /\ TotalSuccesses (counts cb) + TotalFailures (counts cb)
     + Z.of_nat (count_occ Z.eq_dec pending (generation cb))
     <= Requests (counts cb)
  /\ Requests (counts cb) <= r
  /\ 0 <= generation cb <= g
  /\ Forall (fun b => b <= generation cb) pending.

(** The invariant after [n] calls: a call admits at most one request and
    advances the generation at most twice. *)
Definition stamped_ok (n : Z) (cb : CircuitBreaker) (pending : list Z)
  : Prop :=
  stamped_inv n (2 * n + 1) cb pending.

(** Two requests as in [overlapping_requests], each reporting with the
    generation of its admission. *)
Definition overlapping_stamped_requests : list call :=
  [Admit (t0 + 1);
   Admit (t0 + 2 * Second);
   Report 1 true (t0 + 2 * Second + 1);
   Report 0 true (t0 + 2 * Second + 2)].

(** * Properties *)

Arguments uint32_inc : simpl never.
Arguments uint64_inc : simpl never.

Ltac unfold_methods :=
  unfold step, CB.OnFailure, CB.OnSuccess, CB.BeforeRequest, CB.State,
    CB.Counts, CB.Name, CB.afterRequest, CB.beforeRequest, CB.onFailure,
    CB.onSuccess, CB.currentState, CB.setState, CB.reset,
    bind, ret, get, modify, notify,
    with_state, with_generation, with_counts, with_expiry,
    Counts_clear, Time.IsZero, Time.Before, Time.Add, Time.zero in *.

Ltac split_ifs :=
  repeat match goal with
         | |- context [if ?b then _ else _] => destruct b eqn:?; simpl
         | |- context [match state ?cb with _ => _ end] =>
             destruct (state cb) eqn:?; simpl
         end.

(** ** Streak counters *)

Lemma step_streaks_exclusive (o : op) (cb : CircuitBreaker) :
  streaks_exclusive (counts cb) ->
  streaks_exclusive (counts (after (step o cb))).
Proof.
  unfold streaks_exclusive. intros H.
  destruct o; unfold_methods; simpl; split_ifs; auto.
Qed.

Lemma run_cons (o : op) (rest : list op) (cb : CircuitBreaker) :
  after (run (o :: rest) cb) = after (run rest (after (step o cb))).
Proof.
  cbn [run]. unfold bind, ret.
  destruct (step o cb) as [r cb1 l1]; cbn [after].
  destruct (run rest cb1) as [rs cb2 l2]; reflexivity.
Qed.

Lemma exec_streaks_exclusive (ops : list op) :
  forall cb, streaks_exclusive (counts cb) ->
             streaks_exclusive (counts (exec ops cb)).
Proof.
  unfold exec.
  induction ops as [|o rest IH]; intros cb H.
  - exact H.
  - rewrite run_cons. apply IH. now apply step_streaks_exclusive.
Qed.

Lemma new_counts (st : Config) (now : Time.t) :
  counts (NewCircuitBreaker st now) = mkCounts 0 0 0 0 0.
Proof.
  unfold NewCircuitBreaker. unfold_methods. simpl. split_ifs; reflexivity.
Qed.

(** C9: whatever the configuration and whatever sequence of exported calls is
    made on a new breaker, at whatever instants, one of
    [ConsecutiveSuccesses] and [ConsecutiveFailures] is zero afterwards. *)
Theorem consecutive_streaks_never_both_nonzero
  (st : Config) (t0 : Time.t) (ops : list op) :
  let c := counts (exec ops (NewCircuitBreaker st t0)) in
  ~ (ConsecutiveSuccesses c <> 0 /\ ConsecutiveFailures c <> 0).
Proof.
  intros c [Hs Hf].
  assert (H : streaks_exclusive c).
  { apply exec_streaks_exclusive. rewrite new_counts. now left. }
  destruct H as [H | H]; contradiction.
Qed.

(** ** Closed forms of the internal methods *)

Lemma reset_eq (now : Time.t) (cb : CircuitBreaker) :
  CB.reset now cb = mkOut tt (fresh (state cb) now cb) [].
Proof.
  unfold fresh, expiry_from. unfold_methods. simpl.
  destruct (state cb); simpl; [destruct (interval cb =? 0) | |]; reflexivity.
Qed.

Lemma setState_eq (s : State) (now : Time.t) (cb : CircuitBreaker) :
  CB.setState s now cb =
  if State_eqb (state cb) s then mkOut tt cb []
  else mkOut tt (fresh s now cb) (announce cb (state cb) s).
Proof.
  unfold CB.setState, bind, get, ret, modify, notify.
  destruct (State_eqb (state cb) s); [reflexivity|].
  rewrite reset_eq. unfold fresh, expiry_from, announce, with_state. simpl.
  destruct (onStateChange cb); reflexivity.
Qed.

Lemma currentState_not_due (now : Time.t) (cb : CircuitBreaker) :
  due now cb = false ->
  CB.currentState now cb = mkOut (state cb, generation cb) cb [].
Proof.
  unfold due, CB.currentState, bind, get, ret, Time.IsZero, Time.Before.
  destruct (state cb) eqn:Hs; intros H; try rewrite H; rewrite ?Hs;
    reflexivity.
Qed.

Lemma currentState_rollover (now : Time.t) (cb : CircuitBreaker) :
  state cb = StateClosed -> due now cb = true ->
  CB.currentState now cb =
  mkOut (StateClosed, uint64_inc (generation cb)) (fresh StateClosed now cb) [].
Proof.
  unfold due, CB.currentState, bind, get, ret, Time.IsZero, Time.Before.
  intros Hs. rewrite Hs. intros ->. rewrite reset_eq, Hs. reflexivity.
Qed.

Lemma currentState_probe (now : Time.t) (cb : CircuitBreaker) :
  state cb = StateOpen -> due now cb = true ->
  CB.currentState now cb =
  mkOut (StateHalfOpen, uint64_inc (generation cb))
        (fresh StateHalfOpen now cb) (announce cb StateOpen StateHalfOpen).
Proof.
  unfold due, CB.currentState, bind, get, ret, Time.IsZero, Time.Before.
  intros Hs. rewrite Hs. intros ->. rewrite setState_eq, Hs. simpl.
  now rewrite app_nil_r.
Qed.

Lemma afterRequest_stale (before : Z) (success : bool) (now : Time.t)
      (cb : CircuitBreaker) :
  snd (value (CB.currentState now cb)) <> before ->
  CB.afterRequest before success now cb =
  mkOut tt (after (CB.currentState now cb)) (fired (CB.currentState now cb)).
Proof.
  intros H. unfold CB.afterRequest, bind.
  destruct (CB.currentState now cb) as [sg cb1 l1]. cbn [value] in H.
  apply Z.eqb_neq in H. rewrite H. cbn [negb ret after fired].
  now rewrite app_nil_r.
Qed.

Lemma uint64_inc_neq (g : Z) : uint64_inc g <> g.
Proof.
  unfold uint64_inc. intros H.
  assert (Hb : 0 <= g < 2 ^ 64) by (rewrite <- H; apply Z.mod_pos_bound; lia).
  destruct (Z.eq_dec (g + 1) (2 ^ 64)) as [E | E].
  - rewrite E, Z.mod_same in H by lia. lia.
  - rewrite Z.mod_small in H by lia. lia.
Qed.

Lemma uint64_inc_eqb (g : Z) : (uint64_inc g =? g) = false.
Proof. apply Z.eqb_neq, uint64_inc_neq. Qed.

Lemma uint32_inc_small (x : Z) : 0 <= x < 2 ^ 32 - 1 -> uint32_inc x = x + 1.
Proof. intros H. unfold uint32_inc. apply Z.mod_small. lia. Qed.

Lemma uint64_inc_small (x : Z) : 0 <= x < 2 ^ 64 - 1 -> uint64_inc x = x + 1.
Proof. intros H. unfold uint64_inc. apply Z.mod_small. lia. Qed.

Lemma uint32_inc_range (x : Z) : is_uint32 (uint32_inc x).
Proof. unfold is_uint32, uint32_inc. apply Z.mod_pos_bound. lia. Qed.

Lemma uint64_inc_range (x : Z) : is_uint64 (uint64_inc x).
Proof. unfold is_uint64, uint64_inc. apply Z.mod_pos_bound. lia. Qed.

Lemma afterRequest_not_due (before : Z) (success : bool) (now : Time.t)
      (cb : CircuitBreaker) :
  due now cb = false ->
  CB.afterRequest before success now cb =
  if negb (generation cb =? before) then mkOut tt cb []
  else if success then CB.onSuccess (state cb) now cb
       else CB.onFailure (state cb) now cb.
Proof.
  intros Hd. unfold CB.afterRequest, bind.
  rewrite (currentState_not_due _ _ Hd). cbn [fst snd].
  destruct (negb (generation cb =? before)); cbn [ret].
  - reflexivity.
  - destruct success.
    + destruct (CB.onSuccess (state cb) now cb); reflexivity.
    + destruct (CB.onFailure (state cb) now cb); reflexivity.
Qed.

Lemma report_not_due (success : bool) (now : Time.t) (cb : CircuitBreaker) :
  due now cb = false ->
  (if success then CB.OnSuccess now cb else CB.OnFailure now cb) =
  (if success then CB.onSuccess (state cb) now cb
   else CB.onFailure (state cb) now cb).
Proof.
  intros Hd.
  destruct success; unfold CB.OnSuccess, CB.OnFailure, bind, get;
    rewrite (afterRequest_not_due _ _ _ _ Hd), Z.eqb_refl; cbn [negb].
  - destruct (CB.onSuccess (state cb) now cb); reflexivity.
  - destruct (CB.onFailure (state cb) now cb); reflexivity.
Qed.

Lemma report_due (success : bool) (now : Time.t) (cb : CircuitBreaker) :
  due now cb = true ->
  (if success then CB.OnSuccess now cb else CB.OnFailure now cb) =
  mkOut tt (after (CB.currentState now cb)) (fired (CB.currentState now cb)).
Proof.
  intros Hd.
  assert (Hg : snd (value (CB.currentState now cb))
               = uint64_inc (generation cb)).
  { destruct (state cb) eqn:Hs.
    - now rewrite currentState_rollover.
    - unfold due in Hd. rewrite Hs in Hd. discriminate.
    - now rewrite currentState_probe. }
  destruct success; unfold CB.OnSuccess, CB.OnFailure, CB.afterRequest,
    bind, get;
    destruct (CB.currentState now cb) as [sg cb1 l1]; cbn [value snd] in Hg;
    rewrite Hg, uint64_inc_eqb; cbn [negb ret after fired];
    now rewrite app_nil_r.
Qed.

(** ** Outcome reports *)

(** C10: when the state resolved at the instant of a report is open, the
    report changes nothing: the breaker afterwards is the breaker before
    (state, counts, generation and expiry included) and the observer is not
    called.  This holds for [afterRequest] with any generation stamp and for
    the exported [OnSuccess] and [OnFailure]. *)
Theorem report_while_open_is_noop
  (before : Z) (success : bool) (now : Time.t) (cb : CircuitBreaker) :
  fst (value (CB.currentState now cb)) = StateOpen ->
  CB.afterRequest before success now cb = mkOut tt cb []
  /\ CB.OnSuccess now cb = mkOut tt cb []
  /\ CB.OnFailure now cb = mkOut tt cb [].
Proof.
  intros H.
  destruct (due now cb) eqn:Hd.
  - destruct (state cb) eqn:Hs.
    + rewrite currentState_rollover in H by assumption. discriminate.
    + unfold due in Hd. rewrite Hs in Hd. discriminate.
    + rewrite currentState_probe in H by assumption. discriminate.
  - rewrite currentState_not_due in H by assumption. cbn [value fst] in H.
    pose proof (report_not_due true now cb Hd) as Hok.
    pose proof (report_not_due false now cb Hd) as Hko.
    cbn iota in Hok, Hko.
    rewrite afterRequest_not_due, Hok, Hko, H by assumption.
    unfold CB.onSuccess, CB.onFailure, ret.
    repeat split; try reflexivity.
    destruct (negb (generation cb =? before)), success; reflexivity.
Qed.

Lemma report_while_open_is_noop_witness :
  fst (value (CB.currentState (t0 + 7) sample_open)) = StateOpen
  /\ (CB.afterRequest 2 true (t0 + 7) sample_open = mkOut tt sample_open []
      /\ CB.OnSuccess (t0 + 7) sample_open = mkOut tt sample_open []
      /\ CB.OnFailure (t0 + 7) sample_open = mkOut tt sample_open []).
Proof.
  split.
  - reflexivity.
  - apply (report_while_open_is_noop 2 true (t0 + 7) sample_open).
    reflexivity.
Defined.

(** C5: in the half-open state one reported failure opens the breaker,
    whatever the counts of the generation are: the state becomes open, the
    counts are cleared, the generation advances, the expiry is the instant of
    the report plus the timeout, and the observer, when registered, is called
    once with (half-open, open).  This holds for the internal [onFailure] and
    for the exported [OnFailure]. *)
Theorem half_open_failure_opens (now : Time.t) (cb : CircuitBreaker) :
  state cb = StateHalfOpen ->
  forall r, r = CB.OnFailure now cb \/ r = CB.onFailure StateHalfOpen now cb ->
  state (after r) = StateOpen
  /\ counts (after r) = mkCounts 0 0 0 0 0
  /\ generation (after r) = uint64_inc (generation cb)
  /\ expiry (after r) = now + timeout cb
  /\ fired r = (if onStateChange cb
                then [mkNotification (name cb) StateHalfOpen StateOpen]
                else []).
Proof.
  intros Hs r Hr.
  assert (Hd : due now cb = false) by (unfold due; now rewrite Hs).
  pose proof (report_not_due false now cb Hd) as Hko. cbn iota in Hko.
  rewrite Hs in Hko.
  assert (E : r = CB.onFailure StateHalfOpen now cb)
    by (destruct Hr as [-> | ->]; [exact Hko | reflexivity]).
  subst r. unfold CB.onFailure. rewrite setState_eq, Hs. cbn.
  repeat split; reflexivity.
Qed.

Lemma half_open_failure_opens_witness :
  state sample_half_open = StateHalfOpen
  /\ (let r := CB.OnFailure (t0 + 3 * Second) sample_half_open in
      state (after r) = StateOpen
      /\ counts (after r) = mkCounts 0 0 0 0 0
      /\ generation (after r) = uint64_inc (generation sample_half_open)
      /\ expiry (after r) = t0 + 3 * Second + timeout sample_half_open
      /\ fired r = (if onStateChange sample_half_open
                    then [mkNotification (name sample_half_open)
                                         StateHalfOpen StateOpen]
                    else [])).
Proof.
  split.
  - reflexivity.
  - apply (half_open_failure_opens (t0 + 3 * Second) sample_half_open).
    + reflexivity.
    + left. reflexivity.
Defined.

(** C6: in the half-open state, a reported success that brings
    [ConsecutiveSuccesses] to [maxRequests] or more closes the breaker and
    leaves every count at zero; the generation advances and the observer, when
    registered, is called once with (half-open, closed).  This holds for the
    internal [onSuccess] and for the exported [OnSuccess]. *)
Theorem half_open_success_closes (now : Time.t) (cb : CircuitBreaker) :
  state cb = StateHalfOpen ->
  maxRequests cb <= ConsecutiveSuccesses (Counts_onSuccess (counts cb)) ->
  forall r, r = CB.OnSuccess now cb \/ r = CB.onSuccess StateHalfOpen now cb ->
  state (after r) = StateClosed
  /\ counts (after r) = mkCounts 0 0 0 0 0
  /\ generation (after r) = uint64_inc (generation cb)
  /\ fired r = (if onStateChange cb
                then [mkNotification (name cb) StateHalfOpen StateClosed]
                else []).
Proof.
  intros Hs Hmax r Hr.
  assert (Hd : due now cb = false) by (unfold due; now rewrite Hs).
  pose proof (report_not_due true now cb Hd) as Hok. cbn iota in Hok.
  rewrite Hs in Hok.
  assert (E : r = CB.onSuccess StateHalfOpen now cb)
    by (destruct Hr as [-> | ->]; [exact Hok | reflexivity]).
  subst r. unfold CB.onSuccess, bind, get, modify. cbn [counts with_counts
    maxRequests].
  apply Z.leb_le in Hmax. rewrite Hmax, setState_eq. cbn [state with_counts].
  rewrite Hs. cbn.
  repeat split; reflexivity.
Qed.

Lemma half_open_success_closes_witness :
  state sample_one_probe_ok = StateHalfOpen
  /\ maxRequests sample_one_probe_ok
     <= ConsecutiveSuccesses (Counts_onSuccess (counts sample_one_probe_ok))
  /\ (let r := CB.OnSuccess (t0 + 4 * Second) sample_one_probe_ok in
      state (after r) = StateClosed
      /\ counts (after r) = mkCounts 0 0 0 0 0
      /\ generation (after r) = uint64_inc (generation sample_one_probe_ok)
      /\ fired r = (if onStateChange sample_one_probe_ok
                    then [mkNotification (name sample_one_probe_ok)
                                         StateHalfOpen StateClosed]
                    else [])).
Proof.
  split; [reflexivity|]. split; [vm_compute; discriminate|].
  apply (half_open_success_closes (t0 + 4 * Second) sample_one_probe_ok).
  - reflexivity.
  - vm_compute; discriminate.
  - left. reflexivity.
Defined.

(** C7: in the closed state, a reported failure after which [readyToTrip]
    holds of the counts opens the breaker; the observer, when registered, is
    called exactly once, with (closed, open); and a state read made next, at
    any instant up to the new expiry (the instant of the report plus the
    timeout), returns open and calls the observer no further.  This holds
    for the internal [onFailure] and, when no window rollover is due at the
    report, for the exported [OnFailure]. *)
Theorem closed_failure_trips (now now' : Time.t) (cb : CircuitBreaker) :
  state cb = StateClosed ->
  readyToTrip cb (Counts_onFailure (counts cb)) = true ->
  now' <= now + timeout cb ->
  forall r,
    r = CB.onFailure StateClosed now cb
    \/ (due now cb = false /\ r = CB.OnFailure now cb) ->
  state (after r) = StateOpen
  /\ fired r = (if onStateChange cb
                then [mkNotification (name cb) StateClosed StateOpen]
                else [])
  /\ value (CB.State now' (after r)) = StateOpen
  /\ fired (CB.State now' (after r)) = [].
Proof.
  intros Hs Htrip Hnow r Hr.
  assert (E : r = CB.onFailure StateClosed now cb).
  { destruct Hr as [-> | [Hd ->]]; [reflexivity|].
    pose proof (report_not_due false now cb Hd) as Hko. cbn iota in Hko.
    now rewrite Hs in Hko. }
  subst r. unfold CB.onFailure, bind, get, modify.
  cbn [counts with_counts readyToTrip].
  rewrite Htrip, setState_eq. cbn [state with_counts]. rewrite Hs.
  unfold announce. cbn.
  split; [reflexivity|]. split; [destruct (onStateChange cb); reflexivity|].
  unfold CB.State, bind.
  rewrite currentState_not_due.
  - cbn. split; reflexivity.
  - unfold due. cbn. apply Z.ltb_ge. exact Hnow.
Qed.

Lemma closed_failure_trips_witness :
  state sample_two_failures = StateClosed
  /\ readyToTrip sample_two_failures
       (Counts_onFailure (counts sample_two_failures)) = true
  /\ t0 + 7 <= t0 + 6 + timeout sample_two_failures
  /\ (let r := CB.OnFailure (t0 + 6) sample_two_failures in
      state (after r) = StateOpen
      /\ fired r = (if onStateChange sample_two_failures
                    then [mkNotification (name sample_two_failures)
                                         StateClosed StateOpen]
                    else [])
      /\ value (CB.State (t0 + 7) (after r)) = StateOpen
      /\ fired (CB.State (t0 + 7) (after r)) = []).
Proof.
  split; [reflexivity|]. split; [reflexivity|].
  split; [vm_compute; discriminate|].
  apply (closed_failure_trips (t0 + 6) (t0 + 7) sample_two_failures).
  - reflexivity.
  - reflexivity.
  - vm_compute; discriminate.
  - right. split; reflexivity.
Defined.

(** ** Time-based resolution *)

(** C8: for a closed breaker whose expiry is set and lies before [now], each
    operation that resolves the state at [now] leaves the state closed,
    advances the generation by one and calls no observer; the counts are
    cleared by the resolution, so that they are all zero after a state read or
    an outcome report (which is then discarded), and a following admission in
    the same call is the first request of the new window. *)
Theorem closed_window_rollover (now : Time.t) (cb : CircuitBreaker) :
  state cb = StateClosed -> expiry cb <> 0 -> expiry cb < now ->
  rolled_over cb (mkCounts 0 0 0 0 0) (CB.currentState now cb)
  /\ rolled_over cb (mkCounts 0 0 0 0 0) (CB.State now cb)
  /\ value (CB.State now cb) = StateClosed
  /\ rolled_over cb (mkCounts 1 0 0 0 0) (CB.BeforeRequest now cb)
  /\ value (CB.BeforeRequest now cb) = None
  /\ rolled_over cb (mkCounts 0 0 0 0 0) (CB.OnSuccess now cb)
  /\ rolled_over cb (mkCounts 0 0 0 0 0) (CB.OnFailure now cb).
Proof.
  intros Hs He Hlt.
  assert (Hd : due now cb = true).
  { unfold due. rewrite Hs.
    apply Z.eqb_neq in He. apply Z.ltb_lt in Hlt. now rewrite He, Hlt. }
  pose proof (currentState_rollover now cb Hs Hd) as Hc.
  pose proof (report_due true now cb Hd) as Hok.
  pose proof (report_due false now cb Hd) as Hko.
  cbn iota in Hok, Hko.
  rewrite Hok, Hko.
  unfold CB.State, CB.BeforeRequest, CB.beforeRequest, bind, get, modify, ret.
  rewrite Hc. unfold rolled_over. cbn.
  repeat split; reflexivity.
Qed.

Lemma closed_window_rollover_witness :
  state sample_idle = StateClosed
  /\ expiry sample_idle <> 0
  /\ expiry sample_idle < t0 + 10 * Second
  /\ rolled_over sample_idle (mkCounts 0 0 0 0 0)
                 (CB.State (t0 + 10 * Second) sample_idle)
  /\ rolled_over sample_idle (mkCounts 1 0 0 0 0)
                 (CB.BeforeRequest (t0 + 10 * Second) sample_idle).
Proof.
  split; [reflexivity|].
  split; [vm_compute; discriminate|].
  split; [reflexivity|].
  assert (H := closed_window_rollover (t0 + 10 * Second) sample_idle).
  split; apply H; try reflexivity; vm_compute; discriminate.
Defined.

Lemma beforeRequest_open (now : Time.t) (cb : CircuitBreaker) :
  state cb = StateOpen -> now <= expiry cb ->
  CB.BeforeRequest now cb = mkOut (Some ErrOpenState) cb [].
Proof.
  intros Hs Hle.
  unfold CB.BeforeRequest, CB.beforeRequest, bind, get, ret.
  rewrite currentState_not_due.
  - cbn [fst snd]. rewrite Hs. reflexivity.
  - unfold due. rewrite Hs. now apply Z.ltb_ge.
Qed.

Lemma run_rejected_while_open (cb : CircuitBreaker) (nows : list Time.t) :
  state cb = StateOpen ->
  Forall (fun now => now <= expiry cb) nows ->
  run (map OpBeforeRequest nows) cb =
  mkOut (map (fun _ => RAdmission (Some ErrOpenState)) nows) cb [].
Proof.
  intros Hs H. induction H as [|now rest Hle _ IH].
  - reflexivity.
  - cbn [map run step]. unfold bind at 1 2.
    rewrite (beforeRequest_open now cb Hs Hle). cbn [ret value after fired].
    unfold bind. rewrite IH. reflexivity.
Qed.

(** C3: take a breaker that enters the open state at instant [entered].
    Every admission check made at an instant no later than
    [entered + timeout] fails with [ErrOpenState] and leaves the breaker as it
    was, so no request is recorded, however many such checks are made.  A
    check made strictly after [entered + timeout] moves the breaker to the
    half-open state (new generation, observer called with (open, half-open)
    when registered) and succeeds, being recorded as the first request of
    the half-open generation. *)
Theorem open_rejects_until_timeout (entered : Time.t) (cb : CircuitBreaker) :
  state cb <> StateOpen -> 0 < maxRequests cb ->
  let opened := after (CB.setState StateOpen entered cb) in
  state opened = StateOpen
  /\ (forall nows, Forall (fun now => now <= entered + timeout cb) nows ->
        run (map OpBeforeRequest nows) opened =
        mkOut (map (fun _ => RAdmission (Some ErrOpenState)) nows) opened [])
  /\ (forall now, entered + timeout cb < now ->
        let r := CB.BeforeRequest now opened in
        value r = None
        /\ state (after r) = StateHalfOpen
        /\ counts (after r) = mkCounts 1 0 0 0 0
        /\ generation (after r) = uint64_inc (generation opened)
        /\ fired r = (if onStateChange cb
                      then [mkNotification (name cb) StateOpen StateHalfOpen]
                      else [])).
Proof.
  intros Hs Hmax opened.
  assert (Ho : opened = fresh StateOpen entered cb).
  { unfold opened. rewrite setState_eq.
    destruct (state cb); try reflexivity. now elim Hs. }
  rewrite Ho. split; [reflexivity|]. split.
  - intros nows H. now apply run_rejected_while_open.
  - intros now Hlt r. unfold r.
    unfold CB.BeforeRequest, CB.beforeRequest, bind, get, modify, ret.
    rewrite currentState_probe.
    + cbn.
      assert (Hm : (maxRequests cb <=? 0) = false) by (apply Z.leb_gt; lia).
      rewrite Hm. unfold announce. cbn.
      repeat split; try reflexivity.
      destruct (onStateChange cb); reflexivity.
    + reflexivity.
    + unfold due. cbn. now apply Z.ltb_lt.
Qed.

Lemma open_rejects_until_timeout_witness :
  state sample_two_failures <> StateOpen
  /\ 0 < maxRequests sample_two_failures
  /\ (let opened :=
        after (CB.setState StateOpen (t0 + 6) sample_two_failures) in
      run (map OpBeforeRequest [t0 + 7; t0 + 6 + 1 * Second]) opened =
      mkOut [RAdmission (Some ErrOpenState); RAdmission (Some ErrOpenState)]
            opened []
      /\ value (CB.BeforeRequest (t0 + 7 + 1 * Second) opened) = None).
Proof.
  split; [discriminate|]. split; [reflexivity|].
  assert (H := open_rejects_until_timeout (t0 + 6) sample_two_failures).
  cbv zeta in H. split.
  - apply H; [discriminate | reflexivity |].
    repeat constructor; vm_compute; discriminate.
  - apply H; [discriminate | reflexivity | reflexivity].
Defined.

(** ** The probe budget *)

Lemma beforeRequest_half_open (now : Time.t) (cb : CircuitBreaker) :
  state cb = StateHalfOpen ->
  CB.BeforeRequest now cb =
  if maxRequests cb <=? Requests (counts cb)
  then mkOut (Some ErrTooManyRequests) cb []
  else mkOut None (with_counts (Counts_onRequest (counts cb)) cb) [].
Proof.
  intros Hs.
  unfold CB.BeforeRequest, CB.beforeRequest, bind, get, modify, ret.
  rewrite currentState_not_due by (unfold due; now rewrite Hs).
  cbn [fst snd value after fired]. rewrite Hs. cbn [State_eqb andb].
  destruct (maxRequests cb <=? Requests (counts cb)); reflexivity.
Qed.

Lemma half_open_step (o : op) (cb : CircuitBreaker) :
  state cb = StateHalfOpen ->
  0 <= Requests (counts cb) <= maxRequests cb -> maxRequests cb < 2 ^ 32 ->
  let r := step o cb in
  maxRequests (after r) = maxRequests cb
  /\ (state (after r) = StateHalfOpen ->
      generation (after r) = generation cb
      /\ Requests (counts (after r))
         = Requests (counts cb) + (if admitted (value r) then 1 else 0)
      /\ Requests (counts (after r)) <= maxRequests cb)
  /\ (state (after r) <> StateHalfOpen -> admitted (value r) = false).
Proof.
  intros Hs Hr Hm r. unfold r.
  assert (Hd : forall now, due now cb = false)
    by (intros; unfold due; now rewrite Hs).
  destruct o as [|now| |now|now|now]; unfold step, bind.
  - cbn. repeat split; intros; try lia; congruence.
  - unfold CB.State, bind. rewrite currentState_not_due by apply Hd.
    cbn. repeat split; intros; try lia; congruence.
  - cbn. repeat split; intros; try lia; congruence.
  - rewrite beforeRequest_half_open by assumption.
    destruct (maxRequests cb <=? Requests (counts cb)) eqn:E; cbn.
    + repeat split; intros; try lia; congruence.
    + apply Z.leb_gt in E. rewrite uint32_inc_small by lia.
      repeat split; intros; try lia; congruence.
  - pose proof (report_not_due true now cb (Hd now)) as Hok. cbn iota in Hok.
    rewrite Hok, Hs. unfold CB.onSuccess, bind, get, modify.
    cbn [after value fired counts with_counts maxRequests].
    destruct (maxRequests cb <=? _).
    + rewrite setState_eq. cbn [state with_counts]. rewrite Hs. cbn.
      repeat split; intros; try lia; congruence.
    + cbn. repeat split; intros; try lia; congruence.
  - pose proof (report_not_due false now cb (Hd now)) as Hko. cbn iota in Hko.
    rewrite Hko, Hs. unfold CB.onFailure. rewrite setState_eq, Hs. cbn.
    repeat split; intros; try lia; congruence.
Qed.

Lemma probes_admitted_bound (ops : list op) :
  forall cb,
    state cb = StateHalfOpen ->
    0 <= Requests (counts cb) <= maxRequests cb -> maxRequests cb < 2 ^ 32 ->
    Z.of_nat (probes_admitted ops cb) + Requests (counts cb)
    <= maxRequests cb.
Proof.
  induction ops as [|o rest IH]; intros cb Hs Hr Hm.
  - cbn. lia.
  - cbn [probes_admitted].
    destruct (half_open_step o cb Hs Hr Hm) as (Hmax & Hstay & Hleave).
    destruct (state (after (step o cb))) eqn:Hs'.
    + rewrite Hleave by discriminate. cbn. lia.
    + destruct (Hstay eq_refl) as (_ & Hreq & Hle).
      assert (Hrec := IH (after (step o cb)) Hs').
      rewrite Hmax in Hrec.
      destruct (admitted (value (step o cb))); lia.
    + rewrite Hleave by discriminate. cbn. lia.
Qed.

(** C4: for a breaker in the half-open state whose [Requests] does not
    exceed [maxRequests] (as it is on entering the state, where it is zero),
    however a client continues, the admissions granted while the breaker
    stays half-open, added to the requests already admitted, never exceed
    [maxRequests]; an admission check with [Requests >= maxRequests] fails
    with [ErrTooManyRequests] and leaves the breaker, and so [Requests], as
    it was; and a call after which the breaker is still half-open has not
    changed the generation. *)
Theorem half_open_probe_budget (cb : CircuitBreaker) :
  state cb = StateHalfOpen ->
  0 <= Requests (counts cb) <= maxRequests cb -> maxRequests cb < 2 ^ 32 ->
  (forall ops,
      Z.of_nat (probes_admitted ops cb) + Requests (counts cb)
      <= maxRequests cb)
  /\ (forall now,
         maxRequests cb <= Requests (counts cb) ->
         CB.BeforeRequest now cb = mkOut (Some ErrTooManyRequests) cb [])
  /\ (forall o,
         state (after (step o cb)) = StateHalfOpen ->
         generation (after (step o cb)) = generation cb).
Proof.
  intros Hs Hr Hm. split; [|split].
  - intros ops. now apply probes_admitted_bound.
  - intros now Hfull. rewrite beforeRequest_half_open by assumption.
    apply Z.leb_le in Hfull. now rewrite Hfull.
  - intros o Hstay.
    destruct (half_open_step o cb Hs Hr Hm) as (_ & H & _).
    now apply H.
Qed.

Lemma half_open_probe_budget_witness :
  state sample_half_open = StateHalfOpen
  /\ 0 <= Requests (counts sample_half_open) <= maxRequests sample_half_open
  /\ maxRequests sample_half_open < 2 ^ 32
  /\ Z.of_nat (probes_admitted
                 [OpBeforeRequest (t0 + 3 * Second);
                  OpBeforeRequest (t0 + 3 * Second);
                  OpBeforeRequest (t0 + 3 * Second)] sample_half_open)
     + Requests (counts sample_half_open)
     <= maxRequests sample_half_open.
Proof.
  split; [reflexivity|].
  split; [split; vm_compute; discriminate|].
  split; [reflexivity|].
  apply (half_open_probe_budget sample_half_open).
  - reflexivity.
  - split; vm_compute; discriminate.
  - reflexivity.
Defined.

(** ** Breakers a client can hold

    The hypotheses on [maxRequests] and [Requests] used above hold of every
    breaker built by [NewCircuitBreaker] from a valid configuration and used
    through the exported methods. *)

Lemma new_ok (st : Config) (now : Time.t) :
  Config_valid st -> breaker_ok (NewCircuitBreaker st now).
Proof.
  unfold Config_valid, is_uint32. intros (Hm & Hi & Ht).
  unfold NewCircuitBreaker. rewrite reset_eq.
  unfold breaker_ok, counts_in_range, is_uint32, defaultMaxRequests,
    defaultInterval, defaultTimeout, Second.
  cbn.
  destruct (MaxRequests st =? 0) eqn:E1;
    destruct (Interval st <=? 0) eqn:E2;
    destruct (Timeout st <=? 0) eqn:E3;
    rewrite ?Z.eqb_eq, ?Z.eqb_neq, ?Z.leb_le, ?Z.leb_gt in *;
    repeat split; try lia; try discriminate;
    apply uint64_inc_range.
Qed.

Lemma ok_fresh (s : State) (now : Time.t) (cb : CircuitBreaker) :
  breaker_ok cb -> breaker_ok (fresh s now cb).
Proof.
  unfold breaker_ok, counts_in_range, is_uint32.
  intros (Hm & Hi & Ht & _). cbn.
  repeat split; try lia; apply uint64_inc_range.
Qed.

Lemma ok_report (f : Counts -> Counts) (cb : CircuitBreaker) :
  (forall c, counts_in_range c ->
             counts_in_range (f c) /\ Requests (f c) = Requests c) ->
  breaker_ok cb -> breaker_ok (with_counts (f (counts cb)) cb).
Proof.
  unfold breaker_ok. intros Hf (Hm & Hi & Ht & Hg & Hc & Hh).
  destruct (Hf _ Hc) as [Hc' Hr]. cbn.
  repeat (split; [assumption|]).
  intros E. rewrite Hr. now apply Hh.
Qed.

Lemma onSuccess_in_range (c : Counts) :
  counts_in_range c ->
  counts_in_range (Counts_onSuccess c)
  /\ Requests (Counts_onSuccess c) = Requests c.
Proof.
  unfold counts_in_range. intros (Hr & Hts & Htf & Hcs & Hcf). cbn.
  pose proof uint32_inc_range as Hinc.
  split; [|reflexivity].
  repeat (split; [first [assumption | apply Hinc | unfold is_uint32; lia]|]).
  first [assumption | apply Hinc | unfold is_uint32; lia].
Qed.

Lemma onFailure_in_range (c : Counts) :
  counts_in_range c ->
  counts_in_range (Counts_onFailure c)
  /\ Requests (Counts_onFailure c) = Requests c.
Proof.
  unfold counts_in_range. intros (Hr & Hts & Htf & Hcs & Hcf). cbn.
  pose proof uint32_inc_range as Hinc.
  split; [|reflexivity].
  repeat (split; [first [assumption | apply Hinc | unfold is_uint32; lia]|]).
  first [assumption | apply Hinc | unfold is_uint32; lia].
Qed.

Lemma ok_setState (s : State) (now : Time.t) (cb : CircuitBreaker) :
  breaker_ok cb -> breaker_ok (after (CB.setState s now cb)).
Proof.
  intros H. rewrite setState_eq.
  destruct (State_eqb (state cb) s); cbn [after];
    [assumption | now apply ok_fresh].
Qed.

Lemma currentState_value (now : Time.t) (cb : CircuitBreaker) :
  value (CB.currentState now cb)
  = (state (after (CB.currentState now cb)),
     generation (after (CB.currentState now cb))).
Proof.
  destruct (due now cb) eqn:Hd.
  - destruct (state cb) eqn:Hs.
    + now rewrite currentState_rollover.
    + unfold due in Hd. rewrite Hs in Hd. discriminate.
    + now rewrite currentState_probe.
  - now rewrite currentState_not_due.
Qed.

Lemma ok_currentState (now : Time.t) (cb : CircuitBreaker) :
  breaker_ok cb -> breaker_ok (after (CB.currentState now cb)).
Proof.
  intros H. destruct (due now cb) eqn:Hd.
  - destruct (state cb) eqn:Hs.
    + rewrite currentState_rollover by assumption. now apply ok_fresh.
    + unfold due in Hd. rewrite Hs in Hd. discriminate.
    + rewrite currentState_probe by assumption. now apply ok_fresh.
  - now rewrite currentState_not_due.
Qed.

Lemma ok_onSuccess (s : State) (now : Time.t) (cb : CircuitBreaker) :
  breaker_ok cb -> breaker_ok (after (CB.onSuccess s now cb)).
Proof.
  intros H.
  pose proof (ok_report Counts_onSuccess cb onSuccess_in_range H) as H1.
  destruct s; unfold CB.onSuccess, bind, get, modify, ret;
    cbn [after value fired]; try assumption.
  destruct (maxRequests _ <=? _).
  - pose proof (ok_setState StateClosed now _ H1) as H2.
    destruct (CB.setState StateClosed now _). exact H2.
  - exact H1.
Qed.

Lemma ok_onFailure (s : State) (now : Time.t) (cb : CircuitBreaker) :
  breaker_ok cb -> breaker_ok (after (CB.onFailure s now cb)).
Proof.
  intros H.
  pose proof (ok_report Counts_onFailure cb onFailure_in_range H) as H1.
  destruct s; unfold CB.onFailure, bind, get, modify, ret;
    cbn [after value fired]; try assumption.
  - destruct (readyToTrip _ _).
    + pose proof (ok_setState StateOpen now _ H1) as H2.
      destruct (CB.setState StateOpen now _). exact H2.
    + exact H1.
  - now apply ok_setState.
Qed.

Lemma ok_afterRequest (before : Z) (success : bool) (now : Time.t)
      (cb : CircuitBreaker) :
  breaker_ok cb -> breaker_ok (after (CB.afterRequest before success now cb)).
Proof.
  intros H. pose proof (ok_currentState now cb H) as H1.
  unfold CB.afterRequest, bind.
  destruct (CB.currentState now cb) as [sg cb1 l1]. cbn [after] in H1.
  destruct (negb (snd sg =? before)); [exact H1|].
  destruct success.
  - pose proof (ok_onSuccess (fst sg) now cb1 H1) as H2.
    destruct (CB.onSuccess (fst sg) now cb1). exact H2.
  - pose proof (ok_onFailure (fst sg) now cb1 H1) as H2.
    destruct (CB.onFailure (fst sg) now cb1). exact H2.
Qed.

Lemma ok_beforeRequest (now : Time.t) (cb : CircuitBreaker) :
  breaker_ok cb -> breaker_ok (after (CB.beforeRequest now cb)).
Proof.
  intros H. pose proof (ok_currentState now cb H) as H1.
  pose proof (currentState_value now cb) as Hv.
  unfold CB.beforeRequest, bind, get, modify, ret.
  destruct (CB.currentState now cb) as [sg cb1 l1].
  cbn [after value] in H1, Hv. subst sg. cbn [fst snd value after].
  destruct (state cb1) eqn:Hs; cbn [State_eqb andb after]; try assumption.
  - unfold breaker_ok, counts_in_range in *.
    destruct H1 as (Hm & Hi & Ht & Hg & (Hr & Hc) & Hh). cbn.
    pose proof uint32_inc_range as Hinc.
    repeat (split; [assumption|]).
    split; [split; [apply Hinc | exact Hc] | intros E; congruence].
  - destruct (maxRequests cb1 <=? Requests (counts cb1)) eqn:E;
      cbn [after]; [assumption|].
    apply Z.leb_gt in E.
    unfold breaker_ok, counts_in_range, is_uint32 in *.
    destruct H1 as (Hm & Hi & Ht & Hg & (Hr & Hc) & Hh). cbn.
    rewrite uint32_inc_small by lia.
    repeat (split; [assumption|]).
    split; [split; [lia | exact Hc] | intros _; lia].
Qed.

Lemma step_ok (o : op) (cb : CircuitBreaker) :
  breaker_ok cb -> breaker_ok (after (step o cb)).
Proof.
  intros H.
  destruct o as [|now| |now|now|now]; unfold step, bind.
  - exact H.
  - unfold CB.State, bind.
    pose proof (ok_currentState now cb H) as H1.
    destruct (CB.currentState now cb). exact H1.
  - exact H.
  - unfold CB.BeforeRequest, bind.
    pose proof (ok_beforeRequest now cb H) as H1.
    destruct (CB.beforeRequest now cb). exact H1.
  - unfold CB.OnSuccess, bind, get.
    pose proof (ok_afterRequest (generation cb) true now cb H) as H1.
    destruct (CB.afterRequest (generation cb) true now cb). exact H1.
  - unfold CB.OnFailure, bind, get.
    pose proof (ok_afterRequest (generation cb) false now cb H) as H1.
    destruct (CB.afterRequest (generation cb) false now cb). exact H1.
Qed.

Lemma reachable_ok (cb : CircuitBreaker) : reachable cb -> breaker_ok cb.
Proof.
  induction 1 as [st now Hv | cb o _ IH].
  - now apply new_ok.
  - now apply step_ok.
Qed.

(** ** Reports made after the generation has changed *)

(** C1 (not met by the exported methods): a request is admitted in
    generation 1; a state read after the interval rolls the window over to
    generation 2; the request's success, reported through [OnSuccess], is
    then counted in generation 2, although [afterRequest] with the generation
    captured at admission discards it.  In the same way the failure of a
    request admitted in generation 1, reported through [OnFailure] when the
    breaker is half-open in generation 3, opens the breaker and calls the
    observer. *)
Theorem report_after_generation_change_is_applied :
  let admission := CB.beforeRequest (t0 + 1) sample_closed in
  let rolled := after (CB.State (t0 + 2 * Second) (after admission)) in
  let late := t0 + 2 * Second + 1 in
  value admission = (1, None)
  /\ generation rolled = 2
  /\ counts rolled = mkCounts 0 0 0 0 0
  /\ CB.afterRequest 1 true late rolled = mkOut tt rolled []
  /\ counts (after (CB.OnSuccess late rolled)) = mkCounts 0 1 0 1 0
  /\ state sample_slow_request = StateHalfOpen
  /\ generation sample_slow_request = 3
  /\ CB.afterRequest 1 false late sample_slow_request
     = mkOut tt sample_slow_request []
  /\ state (after (CB.OnFailure late sample_slow_request)) = StateOpen
  /\ generation (after (CB.OnFailure late sample_slow_request)) = 4
  /\ fired (CB.OnFailure late sample_slow_request)
     = [mkNotification "random-service" StateHalfOpen StateOpen].
Proof. vm_compute. repeat split; reflexivity. Qed.

(** C2 (not met by the exported methods): the calls of
    [overlapping_requests] follow the protocol, each admitted request
    reporting one outcome, and leave the breaker with two successes counted
    against one request. *)
Theorem overlapping_requests_break_counts_bound :
  follows_protocol 0 overlapping_requests sample_closed = true
  /\ counts (exec overlapping_requests sample_closed) = mkCounts 1 2 0 2 0
  /\ ~ (TotalSuccesses (counts (exec overlapping_requests sample_closed))
        + TotalFailures (counts (exec overlapping_requests sample_closed))
        <= Requests (counts (exec overlapping_requests sample_closed))).
Proof.
  split; [reflexivity|]. split; [reflexivity|].
  vm_compute. intros H. now apply H.
Qed.

(** * Further properties of the methods *)

Lemma currentState_eq (now : Time.t) (cb : CircuitBreaker) :
  CB.currentState now cb = resolve now cb.
Proof.
  unfold resolve. destruct (due now cb) eqn:Hd.
  - destruct (state cb) eqn:Hs.
    + rewrite currentState_rollover by assumption. reflexivity.
    + rewrite currentState_not_due; [now rewrite Hs|].
      unfold due. now rewrite Hs.
    + rewrite currentState_probe by assumption. reflexivity.
  - now apply currentState_not_due.
Qed.

Lemma uint64_inc_twice_eqb (g : Z) :
  (uint64_inc (uint64_inc g) =? g) = false.
Proof.
  apply Z.eqb_neq. unfold uint64_inc. intros H.
  assert (Hb : 0 <= g < 2 ^ 64) by (rewrite <- H; apply Z.mod_pos_bound; lia).
  rewrite Zplus_mod_idemp_l in H.
  destruct (Z_lt_le_dec (g + 1 + 1) (2 ^ 64)) as [E | E].
  - rewrite Z.mod_small in H by lia. lia.
  - replace (g + 1 + 1) with (g + 1 + 1 - 2 ^ 64 + 1 * 2 ^ 64) in H by lia.
    rewrite Z.mod_add, Z.mod_small in H by lia. lia.
Qed.

Arguments CB.setState : simpl never.

(** Case analysis of one exported call: the time-based resolution by
    [resolve], then the bodies of the methods with [setState] in closed
    form. *)
Ltac crack_step o cb :=
  destruct o as [|now| |now|now|now];
  unfold step, CB.Name, CB.State, CB.Counts, CB.BeforeRequest,
    CB.beforeRequest, CB.OnSuccess, CB.OnFailure, CB.afterRequest,
    bind, get, ret, modify;
  try (rewrite (currentState_eq now cb); unfold resolve;
       destruct (due now cb) eqn:Hdue);
  destruct (state cb) eqn:Hst;
  try match goal with
      | H : due _ _ = true, E : state _ = StateHalfOpen |- _ =>
          exfalso; unfold due in H; rewrite E in H; discriminate
      end;
  unfold CB.onSuccess, CB.onFailure, bind, get, modify, ret;
  repeat (cbn;
          rewrite ?Hst, ?setState_eq, ?uint64_inc_eqb, ?Z.eqb_refl;
          cbn;
          try match goal with
              | |- context [if ?b then _ else _] =>
                  lazymatch b with
                  | Z.leb _ _ => destruct b eqn:?
                  | readyToTrip _ _ => destruct b eqn:?
                  end
              end);
  unfold announce; cbn.

(** ** Construction *)

(** X1: [NewCircuitBreaker] keeps the name, replaces a zero [MaxRequests] by
    1, a non-positive [Interval] by 0 and a non-positive [Timeout] by 60
    seconds, and uses the default trip predicate (more than 5 consecutive
    failures) when none is given.  The new breaker is closed, in generation
    1, with all counts zero, and its expiry is unset when the interval is
    disabled and the instant of construction plus the interval otherwise. *)
Theorem new_breaker_settings (st : Config) (now : Time.t) :
  let cb := NewCircuitBreaker st now in
  name cb = Name st
  /\ maxRequests cb = (if MaxRequests st =? 0 then 1 else MaxRequests st)
  /\ interval cb = (if Interval st <=? 0 then 0 else Interval st)
  /\ timeout cb = (if Timeout st <=? 0 then 60 * Second else Timeout st)
  /\ readyToTrip cb = match ReadyToTrip st with
                      | Some f => f
                      | None => fun c => 5 <? ConsecutiveFailures c
                      end
  /\ onStateChange cb = OnStateChange st
  /\ state cb = StateClosed
  /\ generation cb = 1
  /\ counts cb = mkCounts 0 0 0 0 0
  /\ expiry cb = (if Interval st <=? 0 then 0 else now + Interval st).
Proof.
  unfold NewCircuitBreaker. rewrite reset_eq. cbn.
  repeat split; try reflexivity.
  destruct (Interval st <=? 0) eqn:E; [reflexivity|].
  apply Z.leb_gt in E.
  destruct (Interval st =? 0) eqn:E0; [|reflexivity].
  apply Z.eqb_eq in E0. lia.
Qed.

Lemma exec_ok (ops : list op) :
  forall cb, breaker_ok cb -> breaker_ok (exec ops cb).
Proof.
  unfold exec. induction ops as [|o rest IH]; intros cb H.
  - exact H.
  - rewrite run_cons. apply IH. now apply step_ok.
Qed.

(** X2: a breaker built from a configuration whose fields fit their Go types
    and then used through any sequence of exported calls always has
    [1 <= maxRequests < 2^32], a non-negative interval, a positive timeout,
    a generation and counters within their unsigned ranges and, in the
    half-open state, [Requests <= maxRequests]. *)
Theorem constructed_breaker_invariant
  (st : Config) (t0 : Time.t) (ops : list op) :
  Config_valid st ->
  breaker_ok (exec ops (NewCircuitBreaker st t0)).
Proof.
  intros Hv. apply exec_ok. now apply new_ok.
Qed.

Lemma constructed_breaker_invariant_witness :
  Config_valid sample_config
  /\ breaker_ok (exec overlapping_requests (NewCircuitBreaker sample_config t0)).
Proof.
  assert (Hv : Config_valid sample_config).
  { unfold Config_valid, is_uint32. cbn. lia. }
  split; [exact Hv|].
  apply (constructed_breaker_invariant sample_config t0 overlapping_requests).
  exact Hv.
Defined.

(** ** What one exported call can do *)

Lemma step_same_config (o : op) (cb : CircuitBreaker) :
  same_config (after (step o cb)) cb.
Proof.
  unfold same_config.
  crack_step o cb; repeat split; reflexivity.
Qed.

Lemma exec_same_config (ops : list op) (cb : CircuitBreaker) :
  same_config (exec ops cb) cb.
Proof.
  unfold exec. revert cb.
  induction ops as [|o rest IH]; intros cb.
  - unfold same_config. cbn. repeat split; reflexivity.
  - rewrite run_cons.
    destruct (IH (after (step o cb))) as (A1 & A2 & A3 & A4 & A5 & A6).
    destruct (step_same_config o cb) as (B1 & B2 & B3 & B4 & B5 & B6).
    unfold same_config.
    repeat split; etransitivity; eassumption.
Qed.

(** X3: no sequence of exported calls changes the settings of a breaker:
    name, [maxRequests], interval, timeout, trip predicate and observer
    are the same afterwards. *)
Theorem settings_never_change (ops : list op) (cb : CircuitBreaker) :
  same_config (exec ops cb) cb.
Proof. apply exec_same_config. Qed.

(** X4: one exported call calls the observer exactly when it changes the
    state of the breaker and an observer is registered, and then once, with
    the name, the state before the call and the state after it. *)
Theorem observer_called_once_per_state_change (o : op) (cb : CircuitBreaker) :
  fired (step o cb) =
  if State_eqb (state cb) (state (after (step o cb))) then []
  else if onStateChange cb
       then [mkNotification (name cb) (state cb) (state (after (step o cb)))]
       else [].
Proof.
  crack_step o cb.
  all: try reflexivity.
  all: destruct (onStateChange cb); reflexivity.
Qed.

(** X5: the only changes of state one exported call can make are: open to
    half-open by any call that resolves the state ([State], [BeforeRequest],
    [OnSuccess], [OnFailure]); half-open to closed by [OnSuccess]; closed to
    open and half-open to open by [OnFailure].  In particular no call moves
    a closed breaker to half-open or an open breaker to closed, and [Name]
    and [Counts] change no state. *)
Theorem state_changes_of_one_call (o : op) (cb : CircuitBreaker) :
  edge_allowed o (state cb) (state (after (step o cb))) = true.
Proof.
  crack_step o cb; reflexivity.
Qed.

(** X6: one exported call either leaves the generation, the state and the
    expiry as they were, or advances the generation by one; in that case
    the counts afterwards are all zero, except that [Requests] is 1 when
    the call is an admission check that succeeded. *)
Theorem new_generation_starts_from_zero (o : op) (cb : CircuitBreaker) :
  let r := step o cb in
  (generation (after r) = generation cb
   /\ state (after r) = state cb
   /\ expiry (after r) = expiry cb)
  \/ (generation (after r) = uint64_inc (generation cb)
      /\ (counts (after r) = mkCounts 0 0 0 0 0
          \/ (value r = RAdmission None
              /\ counts (after r) = mkCounts 1 0 0 0 0))).
Proof.
  cbv zeta.
  crack_step o cb.
  all: first [ left; repeat split; reflexivity
             | right; split; [reflexivity|]; left; reflexivity
             | right; split; [reflexivity|]; right; split; reflexivity ].
Qed.

(** ** Admission *)

(** Case analysis of one admission check. *)
Ltac crack_admission now cb :=
  unfold CB.BeforeRequest, CB.beforeRequest, CB.State, bind, get, ret, modify;
  rewrite (currentState_eq now cb); unfold resolve;
  destruct (due now cb) eqn:Hdue; destruct (state cb) eqn:Hst;
  try match goal with
      | H : due _ _ = true, E : state _ = StateHalfOpen |- _ =>
          exfalso; unfold due in H; rewrite E in H; discriminate
      end;
  cbn; rewrite ?Hst; cbn.

(** X7: a closed breaker admits every request: the admission check returns
    no error, leaves the breaker closed and calls no observer; [Requests]
    becomes one more (modulo 2^32) than before, counted from zero when the
    window has expired at the check. *)
Theorem closed_breaker_admits (now : Time.t) (cb : CircuitBreaker) :
  state cb = StateClosed ->
  let r := CB.BeforeRequest now cb in
  value r = None
  /\ state (after r) = StateClosed
  /\ fired r = []
  /\ Requests (counts (after r))
     = uint32_inc (if negb (expiry cb =? 0) && (expiry cb <? now)
                   then 0 else Requests (counts cb)).
Proof.
  intros Hs r. unfold r.
  crack_admission now cb; try discriminate;
    unfold due in Hdue; rewrite Hst in Hdue; rewrite Hdue;
    repeat split; reflexivity.
Qed.

Lemma closed_breaker_admits_witness :
  state sample_idle = StateClosed
  /\ value (CB.BeforeRequest (t0 + 3) sample_idle) = None
  /\ Requests (counts (after (CB.BeforeRequest (t0 + 3) sample_idle))) = 2.
Proof.
  split; [reflexivity|].
  destruct (closed_breaker_admits (t0 + 3) sample_idle eq_refl)
    as (Hv & _ & _ & Hr).
  split; [exact Hv | exact Hr].
Defined.

(** X8: an admission check that returns an error leaves the breaker exactly
    as it was and calls no observer (for a breaker with
    [maxRequests > 0]).  [ErrOpenState] is returned only by an open breaker
    whose expiry is not before the instant of the check, and
    [ErrTooManyRequests] only by a half-open breaker with
    [Requests >= maxRequests]. *)
Theorem rejected_admission_changes_nothing
  (now : Time.t) (cb : CircuitBreaker) (e : error) :
  0 < maxRequests cb ->
  value (CB.BeforeRequest now cb) = Some e ->
  CB.BeforeRequest now cb = mkOut (Some e) cb []
  /\ match e with
     | ErrOpenState => state cb = StateOpen /\ expiry cb >= now
     | ErrTooManyRequests =>
         state cb = StateHalfOpen /\ maxRequests cb <= Requests (counts cb)
     end.
Proof.
  intros Hmax.
  crack_admission now cb; try discriminate.
  - assert (E : (maxRequests cb <=? 0) = false) by (apply Z.leb_gt; lia).
    rewrite E. cbn. discriminate.
  - destruct (maxRequests cb <=? Requests (counts cb)) eqn:E; cbn;
      intros H; inversion H; subst e.
    split; [reflexivity|]. split; [reflexivity|]. now apply Z.leb_le.
  - intros H; inversion H; subst e.
    split; [reflexivity|]. split; [reflexivity|].
    unfold due in Hdue. rewrite Hst in Hdue. apply Z.ltb_ge in Hdue. lia.
Qed.

Lemma rejected_admission_changes_nothing_witness :
  0 < maxRequests sample_open
  /\ value (CB.BeforeRequest (t0 + 7) sample_open) = Some ErrOpenState
  /\ CB.BeforeRequest (t0 + 7) sample_open
     = mkOut (Some ErrOpenState) sample_open [].
Proof.
  split; [reflexivity|]. split; [reflexivity|].
  apply (rejected_admission_changes_nothing (t0 + 7) sample_open ErrOpenState);
    reflexivity.
Defined.

Lemma run_cons_out (o : op) (rest : list op) (cb : CircuitBreaker) :
  run (o :: rest) cb =
  mkOut (value (step o cb) :: value (run rest (after (step o cb))))
        (after (run rest (after (step o cb))))
        (fired (step o cb) ++ fired (run rest (after (step o cb)))).
Proof.
  cbn [run]. unfold bind, ret.
  destruct (step o cb) as [r cb1 l1]. cbn [value after fired].
  destruct (run rest cb1) as [rs cb2 l2]. cbn [value after fired].
  now rewrite app_nil_r.
Qed.

Lemma exhausted_half_open_step (o : op) (cb : CircuitBreaker) :
  state cb = StateHalfOpen ->
  maxRequests cb <= Requests (counts cb) ->
  no_report o = true ->
  exists rep, step o cb = mkOut rep cb [] /\ admitted rep = false.
Proof.
  intros Hs Hfull Hno.
  assert (Hd : forall now, due now cb = false)
    by (intros; unfold due; now rewrite Hs).
  destruct o as [|now| |now|now|now]; try discriminate; unfold step, bind.
  - eexists. split; reflexivity.
  - unfold CB.State, bind. rewrite currentState_not_due by apply Hd.
    eexists. split; reflexivity.
  - eexists. split; reflexivity.
  - rewrite beforeRequest_half_open by assumption.
    apply Z.leb_le in Hfull. rewrite Hfull.
    eexists. split; reflexivity.
Qed.

(** X9: a half-open breaker whose probe budget is used up
    ([Requests >= maxRequests]) is changed by outcome reports only: whatever
    sequence of [Name], [State], [Counts] and [BeforeRequest] calls is made,
    at whatever instants, the breaker stays exactly as it is, no observer is
    called and no admission check succeeds.  If the admitted probes never
    report, the breaker rejects every request from then on. *)
Theorem exhausted_half_open_waits_for_reports
  (ops : list op) (cb : CircuitBreaker) :
  state cb = StateHalfOpen ->
  maxRequests cb <= Requests (counts cb) ->
  forallb no_report ops = true ->
  exec ops cb = cb
  /\ fired (run ops cb) = []
  /\ forallb (fun rep => negb (admitted rep)) (value (run ops cb)) = true.
Proof.
  intros Hs Hfull. unfold exec.
  induction ops as [|o rest IH]; intros Hno.
  - repeat split; reflexivity.
  - cbn [forallb] in Hno. apply andb_true_iff in Hno. destruct Hno as [Ho Hr].
    destruct (exhausted_half_open_step o cb Hs Hfull Ho) as (rep & E & Ha).
    destruct (IH Hr) as (I1 & I2 & I3).
    rewrite run_cons_out, E. cbn [value after fired app forallb].
    rewrite I1, I2, I3, Ha. repeat split; reflexivity.
Qed.

Lemma exhausted_half_open_waits_for_reports_witness :
  let cb := exec [OpBeforeRequest (t0 + 3 * Second);
                  OpBeforeRequest (t0 + 3 * Second)] sample_half_open in
  let ops := [OpBeforeRequest (t0 + 100 * Second); OpState (t0 + 200 * Second);
              OpBeforeRequest (t0 + 300 * Second)] in
  state cb = StateHalfOpen
  /\ maxRequests cb <= Requests (counts cb)
  /\ forallb no_report ops = true
  /\ exec ops cb = cb.
Proof.
  cbv zeta.
  split; [reflexivity|]. split; [vm_compute; discriminate|].
  split; [reflexivity|].
  apply exhausted_half_open_waits_for_reports.
  - reflexivity.
  - vm_compute; discriminate.
  - reflexivity.
Defined.

(** ** Reports *)

(** X10: an outcome report made on an open breaker whose timeout has
    elapsed only performs the time-based transition: the breaker becomes
    half-open in the next generation with all counts zero and no expiry, the
    observer (when registered) is called once with (open, half-open), and
    the reported outcome itself is dropped, be it a success or a failure. *)
Theorem report_after_timeout_only_half_opens
  (success : bool) (now : Time.t) (cb : CircuitBreaker) :
  state cb = StateOpen -> expiry cb < now ->
  let r := if success then CB.OnSuccess now cb else CB.OnFailure now cb in
  state (after r) = StateHalfOpen
  /\ generation (after r) = uint64_inc (generation cb)
  /\ counts (after r) = mkCounts 0 0 0 0 0
  /\ expiry (after r) = 0
  /\ fired r = (if onStateChange cb
                then [mkNotification (name cb) StateOpen StateHalfOpen]
                else []).
Proof.
  intros Hs Hlt r. unfold r.
  assert (Hd : due now cb = true)
    by (unfold due; rewrite Hs; now apply Z.ltb_lt).
  rewrite (report_due success now cb Hd).
  rewrite currentState_probe by assumption. cbn.
  repeat split; reflexivity.
Qed.

Lemma report_after_timeout_only_half_opens_witness :
  state sample_open = StateOpen
  /\ expiry sample_open < t0 + 2 * Second
  /\ state (after (CB.OnFailure (t0 + 2 * Second) sample_open))
     = StateHalfOpen
  /\ counts (after (CB.OnFailure (t0 + 2 * Second) sample_open))
     = mkCounts 0 0 0 0 0.
Proof.
  split; [reflexivity|]. split; [reflexivity|].
  destruct (report_after_timeout_only_half_opens
              false (t0 + 2 * Second) sample_open eq_refl eq_refl)
    as (H1 & _ & H3 & _).
  split; [exact H1 | exact H3].
Defined.

(** X11: a report stamped with the generation a breaker had before a
    transition is discarded by [afterRequest], whenever it arrives and
    whatever the outcome, also when the generation counter wraps around:
    the call does nothing but the time-based resolution, and the counts
    afterwards are all zero. *)
Theorem stamp_of_previous_generation_is_discarded
  (s : State) (entered now : Time.t) (success : bool) (cb : CircuitBreaker) :
  state cb <> s ->
  let cb' := after (CB.setState s entered cb) in
  let r := CB.afterRequest (generation cb) success now cb' in
  r = mkOut tt (after (CB.currentState now cb'))
            (fired (CB.currentState now cb'))
  /\ counts (after r) = mkCounts 0 0 0 0 0.
Proof.
  intros Hne cb' r.
  assert (Hcb : cb' = fresh s entered cb).
  { unfold cb'. rewrite setState_eq.
    destruct (State_eqb (state cb) s) eqn:E; [|reflexivity].
    destruct (state cb), s; try discriminate; now elim Hne. }
  assert (Hr : r = mkOut tt (after (CB.currentState now cb'))
                         (fired (CB.currentState now cb'))).
  { unfold r. apply afterRequest_stale.
    rewrite currentState_eq, Hcb. unfold resolve.
    destruct (due now (fresh s entered cb)); destruct s; cbn;
      apply Z.eqb_neq;
      first [apply uint64_inc_eqb | apply uint64_inc_twice_eqb]. }
  split; [exact Hr|].
  rewrite Hr. cbn [after]. rewrite currentState_eq, Hcb. unfold resolve.
  destruct (due now (fresh s entered cb)); destruct s; reflexivity.
Qed.

Lemma stamp_of_previous_generation_is_discarded_witness :
  state sample_two_failures <> StateOpen
  /\ (let cb' := after (CB.setState StateOpen (t0 + 6) sample_two_failures) in
      counts (after (CB.afterRequest (generation sample_two_failures) false
                       (t0 + 7) cb'))
      = mkCounts 0 0 0 0 0).
Proof.
  split; [discriminate|].
  apply (stamp_of_previous_generation_is_discarded
           StateOpen (t0 + 6) (t0 + 7) false sample_two_failures).
  discriminate.
Defined.

(** ** State reads *)

(** X12: a state read repeated at the same instant changes nothing more:
    for a breaker with a non-negative interval, the second read returns the
    state the first returned, leaves the breaker as the first left it and
    calls no observer. *)
Theorem state_read_is_idempotent (now : Time.t) (cb : CircuitBreaker) :
  0 <= interval cb ->
  let r := CB.State now cb in
  CB.State now (after r) = mkOut (value r) (after r) [].
Proof.
  intros Hi r. unfold r.
  assert (Hnd : forall c, due now c = false ->
                          CB.State now c = mkOut (state c) c []).
  { intros c Hc. unfold CB.State, bind, ret.
    now rewrite currentState_not_due. }
  unfold CB.State at 2 3 4, bind, ret. rewrite currentState_eq.
  unfold resolve.
  destruct (due now cb) eqn:Hd; [destruct (state cb) eqn:Hs|];
    cbn [value after fired fst].
  - apply Hnd. unfold due. cbn.
    destruct (interval cb =? 0) eqn:E; [reflexivity|].
    apply andb_false_iff. right. apply Z.ltb_ge. lia.
  - unfold due in Hd. rewrite Hs in Hd. discriminate.
  - apply Hnd. reflexivity.
  - apply Hnd. exact Hd.
Qed.

Lemma state_read_is_idempotent_witness :
  0 <= interval sample_open
  /\ CB.State (t0 + 2 * Second)
       (after (CB.State (t0 + 2 * Second) sample_open))
     = mkOut StateHalfOpen (after (CB.State (t0 + 2 * Second) sample_open)) [].
Proof.
  split; [vm_compute; discriminate|].
  apply (state_read_is_idempotent (t0 + 2 * Second) sample_open).
  vm_compute; discriminate.
Defined.

(** ** A disabled interval *)

Lemma step_expiry_unset_ok (o : op) (cb : CircuitBreaker) :
  expiry_unset_ok cb -> expiry_unset_ok (after (step o cb)).
Proof.
  unfold expiry_unset_ok. intros [Hh Hc].
  crack_step o cb; split; intros E1; try discriminate;
    try (intros E2); try rewrite E2; try rewrite Z.eqb_refl;
    auto; try reflexivity.
Qed.

Lemma exec_expiry_unset_ok (ops : list op) :
  forall cb, expiry_unset_ok cb -> expiry_unset_ok (exec ops cb).
Proof.
  unfold exec. induction ops as [|o rest IH]; intros cb H.
  - exact H.
  - rewrite run_cons. apply IH. now apply step_expiry_unset_ok.
Qed.

Lemma new_expiry_unset_ok (st : Config) (now : Time.t) :
  expiry_unset_ok (NewCircuitBreaker st now).
Proof.
  unfold NewCircuitBreaker. rewrite reset_eq. unfold expiry_unset_ok. cbn.
  split; [discriminate|]. intros _ E. now rewrite E.
Qed.

Lemma new_interval_disabled (st : Config) (now : Time.t) :
  Interval st <= 0 -> interval (NewCircuitBreaker st now) = 0.
Proof.
  intros H. unfold NewCircuitBreaker. rewrite reset_eq. cbn.
  apply Z.leb_le in H. now rewrite H.
Qed.

(** X13: with [Interval <= 0] in the configuration the closed breaker never
    clears its counts by time: whatever calls were made before, as long as
    the breaker is closed, a state read at any instant returns closed and
    leaves the breaker as it is, and an admission check only adds one to
    [Requests]. *)
Theorem disabled_interval_never_rolls_over
  (st : Config) (t0 now : Time.t) (ops : list op) :
  Interval st <= 0 ->
  let cb := exec ops (NewCircuitBreaker st t0) in
  state cb = StateClosed ->
  CB.State now cb = mkOut StateClosed cb []
  /\ CB.BeforeRequest now cb
     = mkOut None (with_counts (Counts_onRequest (counts cb)) cb) [].
Proof.
  intros Hi cb Hs.
  assert (Hint : interval cb = 0).
  { destruct (exec_same_config ops (NewCircuitBreaker st t0))
      as (_ & _ & E & _).
    unfold cb. rewrite E. now apply new_interval_disabled. }
  assert (He : expiry cb = 0).
  { apply (exec_expiry_unset_ok ops _ (new_expiry_unset_ok st t0));
      assumption. }
  assert (Hd : due now cb = false).
  { unfold due. rewrite Hs, He. reflexivity. }
  unfold CB.State, CB.BeforeRequest, CB.beforeRequest, bind, get, ret, modify.
  rewrite (currentState_not_due now cb Hd). cbn. rewrite Hs. cbn.
  split; reflexivity.
Qed.

Lemma disabled_interval_never_rolls_over_witness :
  Interval default_config <= 0
  /\ (let cb := exec [OpBeforeRequest (t0 + 1); OpOnSuccess (t0 + 2)]
                     (NewCircuitBreaker default_config t0) in
      state cb = StateClosed
      /\ CB.State (t0 + 1000000 * Second) cb = mkOut StateClosed cb []).
Proof.
  split; [discriminate|]. cbv zeta. split; [reflexivity|].
  apply (disabled_interval_never_rolls_over default_config t0
           (t0 + 1000000 * Second)
           [OpBeforeRequest (t0 + 1); OpOnSuccess (t0 + 2)]).
  - discriminate.
  - reflexivity.
Defined.

(** ** The default trip predicate *)

Lemma exec_app (a b : list op) :
  forall cb, exec (a ++ b) cb = exec b (exec a cb).
Proof.
  unfold exec. induction a as [|o rest IH]; intros cb.
  - reflexivity.
  - cbn [app]. rewrite !run_cons. apply IH.
Qed.

Lemma failed_request_closed
      (p : Time.t * Time.t) (k : Z) (cb : CircuitBreaker) :
  state cb = StateClosed -> expiry cb = 0 ->
  readyToTrip cb = defaultReadyToTrip ->
  counts cb = mkCounts k 0 k 0 k -> 0 <= k < 2 ^ 32 - 1 ->
  let cb' := exec (failing_requests [p]) cb in
  if 5 <? k + 1
  then state cb' = StateOpen /\ counts cb' = mkCounts 0 0 0 0 0
       /\ expiry cb' = snd p + timeout cb
  else state cb' = StateClosed /\ expiry cb' = 0
       /\ readyToTrip cb' = defaultReadyToTrip
       /\ counts cb' = mkCounts (k + 1) 0 (k + 1) 0 (k + 1).
Proof.
  intros Hs He Hr Hc Hk cb'. unfold cb', exec, failing_requests.
  cbn [flat_map app]. rewrite !run_cons. cbn [run ret after].
  assert (Hd : forall now, due now cb = false)
    by (intros; unfold due; now rewrite Hs, He).
  assert (H1 : after (step (OpBeforeRequest (fst p)) cb)
               = with_counts (Counts_onRequest (counts cb)) cb).
  { unfold step, CB.BeforeRequest, CB.beforeRequest, bind, get, ret, modify.
    rewrite (currentState_not_due _ _ (Hd (fst p))). cbn. rewrite Hs.
    reflexivity. }
  rewrite H1.
  set (cb1 := with_counts (Counts_onRequest (counts cb)) cb).
  assert (Hd1 : due (snd p) cb1 = false) by apply (Hd (snd p)).
  pose proof (report_not_due false (snd p) cb1 Hd1) as Hko. cbn iota in Hko.
  unfold step, bind. rewrite Hko.
  unfold cb1. cbn [state with_counts]. rewrite Hs.
  unfold CB.onFailure, bind, get, modify.
  cbn [counts with_counts readyToTrip value after fired].
  rewrite Hr, Hc. unfold defaultReadyToTrip, defaultMaxConsecutiveFailures.
  cbn [Counts_onRequest Counts_onFailure ConsecutiveFailures Requests
       TotalSuccesses TotalFailures ConsecutiveSuccesses].
  rewrite !uint32_inc_small by lia.
  destruct (5 <? k + 1).
  - rewrite setState_eq. cbn [state with_counts]. rewrite Hs. cbn.
    repeat split; reflexivity.
  - cbn. split; [assumption|]. split; [assumption|]. split; [exact Hr|].
    unfold Counts_onFailure, Counts_onRequest. cbn.
    rewrite !uint32_inc_small by lia. reflexivity.
Qed.

Lemma failed_requests_closed (nows : list (Time.t * Time.t)) :
  forall (k : Z) (cb : CircuitBreaker),
    state cb = StateClosed -> expiry cb = 0 ->
    readyToTrip cb = defaultReadyToTrip ->
    counts cb = mkCounts k 0 k 0 k -> 0 <= k ->
    k + Z.of_nat (List.length nows) <= 5 ->
    let n := k + Z.of_nat (List.length nows) in
    let cb' := exec (failing_requests nows) cb in
    state cb' = StateClosed /\ expiry cb' = 0
    /\ readyToTrip cb' = defaultReadyToTrip
    /\ timeout cb' = timeout cb
    /\ counts cb' = mkCounts n 0 n 0 n.
Proof.
  induction nows as [|p rest IH]; intros k cb Hs He Hr Hc Hk Hn.
  - cbn. rewrite Z.add_0_r. repeat split; assumption.
  - cbn [List.length] in Hn. rewrite Nat2Z.inj_succ in Hn.
    pose proof (failed_request_closed p k cb Hs He Hr Hc) as H1.
    cbv zeta in H1.
    assert (E : (5 <? k + 1) = false) by (apply Z.ltb_ge; lia).
    rewrite E in H1. destruct H1 as (Hs1 & He1 & Hr1 & Hc1); [lia|].
    change (failing_requests (p :: rest))
      with (failing_requests [p] ++ failing_requests rest).
    cbv zeta. rewrite exec_app.
    destruct (IH (k + 1) _ Hs1 He1 Hr1 Hc1) as (A & B & C & D & F);
      [lia | lia |].
    cbn [List.length]. rewrite Nat2Z.inj_succ.
    replace (k + Z.succ (Z.of_nat (List.length rest)))
      with (k + 1 + Z.of_nat (List.length rest)) by lia.
    repeat split; try assumption.
    rewrite D.
    destruct (exec_same_config (failing_requests [p]) cb) as (_ & _ & _ & T & _).
    exact T.
Qed.

Lemma failing_requests_app (a b : list (Time.t * Time.t)) :
  failing_requests (a ++ b) = failing_requests a ++ failing_requests b.
Proof. unfold failing_requests. apply flat_map_app. Qed.

(** X14: a breaker built without a trip predicate and with the interval
    disabled stays closed through up to five admitted requests that fail one
    after the other, at whatever instants, counting each of them
    ([Requests], [TotalFailures] and [ConsecutiveFailures] equal their
    number); the sixth such failure opens it, clears the counts and sets the
    expiry to the instant of that report plus the timeout. *)
Theorem default_breaker_opens_on_sixth_failure
  (st : Config) (t0 : Time.t) (nows : list (Time.t * Time.t))
  (p : Time.t * Time.t) :
  ReadyToTrip st = None -> Interval st <= 0 ->
  (List.length nows <= 5)%nat ->
  let new := NewCircuitBreaker st t0 in
  let n := Z.of_nat (List.length nows) in
  let cb := exec (failing_requests nows) new in
  let cb' := exec (failing_requests (nows ++ [p])) new in
  state cb = StateClosed
  /\ counts cb = mkCounts n 0 n 0 n
  /\ (List.length nows = 5%nat ->
      state cb' = StateOpen /\ counts cb' = mkCounts 0 0 0 0 0
      /\ expiry cb' = snd p + timeout new).
Proof.
  intros Hr Hi Hlen new n cb cb'.
  assert (Hnew : state new = StateClosed /\ expiry new = 0
                 /\ readyToTrip new = defaultReadyToTrip
                 /\ counts new = mkCounts 0 0 0 0 0).
  { unfold new, NewCircuitBreaker. rewrite reset_eq. cbn. rewrite Hr.
    apply Z.leb_le in Hi. rewrite Hi. cbn. repeat split; reflexivity. }
  destruct Hnew as (N1 & N2 & N3 & N4).
  destruct (failed_requests_closed nows 0 new N1 N2 N3 N4)
    as (A & B & C & D & E); [lia | lia |].
  cbn [Z.add] in E. fold n in E. fold cb in A, B, C, D, E.
  split; [exact A|]. split; [exact E|].
  intros H5. unfold cb'. rewrite failing_requests_app, exec_app. fold cb.
  assert (Hn : n = 5) by (unfold n; rewrite H5; reflexivity).
  rewrite Hn in E.
  pose proof (failed_request_closed p 5 cb A B C E) as H1.
  cbv zeta in H1. change (5 <? 5 + 1) with true in H1. cbv iota in H1.
  rewrite D in H1. apply H1. lia.
Qed.

Lemma default_breaker_opens_on_sixth_failure_witness :
  let nows := [(t0 + 1, t0 + 2); (t0 + 3, t0 + 4); (t0 + 5, t0 + 6);
               (t0 + 7, t0 + 8); (t0 + 9, t0 + 10)] in
  ReadyToTrip default_config = None
  /\ Interval default_config <= 0
  /\ (List.length nows <= 5)%nat
  /\ state (exec (failing_requests nows)
                 (NewCircuitBreaker default_config t0)) = StateClosed
  /\ state (exec (failing_requests (nows ++ [(t0 + 11, t0 + 12)]))
                 (NewCircuitBreaker default_config t0)) = StateOpen.
Proof.
  cbv zeta.
  split; [reflexivity|]. split; [discriminate|]. split; [cbn; lia|].
  destruct (default_breaker_opens_on_sixth_failure
              default_config t0
              [(t0 + 1, t0 + 2); (t0 + 3, t0 + 4); (t0 + 5, t0 + 6);
               (t0 + 7, t0 + 8); (t0 + 9, t0 + 10)]
              (t0 + 11, t0 + 12) eq_refl)
    as (A & _ & C).
  - discriminate.
  - cbn; lia.
  - split; [exact A|]. apply C. reflexivity.
Defined.

(** ** Streaks and totals *)

Lemma step_streaks_bounded (o : op) (n : Z) (cb : CircuitBreaker) :
  streaks_bounded n (counts cb) -> 0 <= n < 2 ^ 32 - 1 ->
  streaks_bounded (n + 1) (counts (after (step o cb))).
Proof.
  unfold streaks_bounded. intros H Hn.
  crack_step o cb;
    repeat rewrite uint32_inc_small by lia; lia.
Qed.

Lemma exec_streaks_bounded (ops : list op) :
  forall (n : Z) (cb : CircuitBreaker),
    streaks_bounded n (counts cb) -> 0 <= n ->
    n + Z.of_nat (List.length ops) < 2 ^ 32 ->
    streaks_bounded (n + Z.of_nat (List.length ops)) (counts (exec ops cb)).
Proof.
  unfold exec. induction ops as [|o rest IH]; intros n cb H Hn Hlen.
  - cbn. now rewrite Z.add_0_r.
  - cbn [List.length] in *. rewrite Nat2Z.inj_succ in *.
    rewrite run_cons.
    replace (n + Z.succ (Z.of_nat (List.length rest)))
      with (n + 1 + Z.of_nat (List.length rest)) by lia.
    apply IH; [apply step_streaks_bounded; [assumption | lia] | lia | lia].
Qed.

(** X15: through any sequence of fewer than 2^32 exported calls on a new
    breaker, the streak counters never exceed the totals
    ([ConsecutiveSuccesses <= TotalSuccesses] and
    [ConsecutiveFailures <= TotalFailures]), and the totals never exceed
    the number of calls made. *)
Theorem streaks_never_exceed_totals
  (st : Config) (t0 : Time.t) (ops : list op) :
  Z.of_nat (List.length ops) < 2 ^ 32 ->
  let c := counts (exec ops (NewCircuitBreaker st t0)) in
  ConsecutiveSuccesses c <= TotalSuccesses c
  /\ ConsecutiveFailures c <= TotalFailures c
  /\ TotalSuccesses c <= Z.of_nat (List.length ops)
  /\ TotalFailures c <= Z.of_nat (List.length ops).
Proof.
  intros Hlen c.
  assert (H0 : streaks_bounded 0 (counts (NewCircuitBreaker st t0))).
  { rewrite new_counts. unfold streaks_bounded. cbn. lia. }
  pose proof (exec_streaks_bounded ops 0 _ H0) as H.
  cbn [Z.add] in H. unfold streaks_bounded in H. fold c in H.
  lia.
Qed.

Lemma streaks_never_exceed_totals_witness :
  Z.of_nat (List.length overlapping_requests) < 2 ^ 32
  /\ (let c := counts (exec overlapping_requests
                            (NewCircuitBreaker sample_config t0)) in
      ConsecutiveSuccesses c <= TotalSuccesses c
      /\ ConsecutiveFailures c <= TotalFailures c
      /\ TotalSuccesses c <= Z.of_nat (List.length overlapping_requests)
      /\ TotalFailures c <= Z.of_nat (List.length overlapping_requests)).
Proof.
  split; [reflexivity|].
  apply (streaks_never_exceed_totals sample_config t0 overlapping_requests).
  reflexivity.
Defined.

(** ** Stamped reports *)

Lemma without_cons (i : nat) (a : Z) (l : list Z) :
  without (S i) (a :: l) = a :: without i l.
Proof. reflexivity. Qed.

Lemma count_without_le (x : Z) (l : list Z) :
  forall i, (count_occ Z.eq_dec (without i l) x
             <= count_occ Z.eq_dec l x)%nat.
Proof.
  induction l as [|a l IH]; intros [|i].
  - cbn. lia.
  - cbn. lia.
  - unfold without. cbn [firstn skipn app count_occ].
    destruct (Z.eq_dec a x); lia.
  - rewrite without_cons. cbn [count_occ].
    specialize (IH i). destruct (Z.eq_dec a x); lia.
Qed.

Lemma count_without_hit (x : Z) (l : list Z) :
  forall i, nth_error l i = Some x ->
            count_occ Z.eq_dec l x = S (count_occ Z.eq_dec (without i l) x).
Proof.
  induction l as [|a l IH]; intros [|i] H; try discriminate.
  - cbn in H. inversion H; subst a.
    unfold without. cbn [firstn skipn app count_occ].
    destruct (Z.eq_dec x x); [reflexivity | contradiction].
  - cbn in H. rewrite without_cons. cbn [count_occ].
    rewrite (IH i H). destruct (Z.eq_dec a x); reflexivity.
Qed.

Lemma Forall_without (P : Z -> Prop) (l : list Z) :
  forall i, Forall P l -> Forall P (without i l).
Proof.
  induction l as [|a l IH]; intros [|i] H.
  - constructor.
  - constructor.
  - now inversion H.
  - rewrite without_cons. inversion H; subst. constructor; auto.
Qed.

Lemma count_above (g x : Z) (l : list Z) :
  Forall (fun y => y <= g) l -> g < x -> count_occ Z.eq_dec l x = 0%nat.
Proof.
  intros H Hlt. apply count_occ_not_In. intros Hin.
  rewrite Forall_forall in H. specialize (H x Hin). lia.
Qed.

Lemma Forall_le_weaken (g g' : Z) (l : list Z) :
  Forall (fun y => y <= g) l -> g <= g' -> Forall (fun y => y <= g') l.
Proof.
  intros H Hle. eapply Forall_impl; [|exact H]. cbn. intros; lia.
Qed.

Lemma stamped_inv_weaken (r g r' g' : Z) (cb : CircuitBreaker)
      (p p' : list Z) :
  stamped_inv r g cb p -> r <= r' -> g <= g' ->
  (count_occ Z.eq_dec p' (generation cb)
   <= count_occ Z.eq_dec p (generation cb))%nat ->
  Forall (fun b => b <= generation cb) p' ->
  stamped_inv r' g' cb p'.
Proof.
  unfold stamped_inv. intros (H1 & H2 & H3 & H4 & H5 & H6) Hr Hg Hc Hf.
  repeat split; try lia; assumption.
Qed.

Lemma stamped_inv_drop (r g : Z) (cb : CircuitBreaker) (p : list Z) (i : nat) :
  stamped_inv r g cb p -> stamped_inv r g cb (without i p).
Proof.
  intros H. apply (stamped_inv_weaken r g r g cb p); try lia; try assumption.
  - apply count_without_le.
  - apply Forall_without. apply H.
Qed.

Lemma stamped_inv_fresh (r g : Z) (cb : CircuitBreaker) (p : list Z)
      (s : State) (now : Time.t) :
  stamped_inv r g cb p -> 0 <= r -> g < 2 ^ 64 - 1 ->
  stamped_inv r (g + 1) (fresh s now cb) p.
Proof.
  unfold stamped_inv. intros (H1 & H2 & H3 & H4 & H5 & H6) Hr Hb. cbn.
  rewrite uint64_inc_small by lia.
  rewrite (count_above (generation cb)) by (assumption || lia).
  repeat split; try lia.
  apply (Forall_le_weaken (generation cb)); [assumption | lia].
Qed.

Lemma stamped_inv_admit (r g : Z) (cb : CircuitBreaker) (p : list Z) :
  stamped_inv r g cb p -> r < 2 ^ 32 - 1 ->
  stamped_inv (r + 1) g (with_counts (Counts_onRequest (counts cb)) cb)
              (generation cb :: p).
Proof.
  unfold stamped_inv. intros (H1 & H2 & H3 & H4 & H5 & H6) Hb. cbn.
  rewrite uint32_inc_small by lia.
  destruct (Z.eq_dec (generation cb) (generation cb)); [|contradiction].
  repeat split; try lia.
  constructor; [lia | assumption].
Qed.

Lemma stamped_inv_outcome (r g : Z) (cb : CircuitBreaker) (p : list Z)
      (i : nat) (success : bool) :
  stamped_inv r g cb p -> r < 2 ^ 32 - 1 ->
  nth_error p i = Some (generation cb) ->
  stamped_inv r g
    (with_counts (if success then Counts_onSuccess (counts cb)
                  else Counts_onFailure (counts cb)) cb)
    (without i p).
Proof.
  unfold stamped_inv. intros (H1 & H2 & H3 & H4 & H5 & H6) Hb Hn.
  rewrite (count_without_hit _ _ _ Hn) in H3.
  pose proof (Forall_without _ p i H6) as Hf.
  destruct success; cbn; rewrite uint32_inc_small by lia;
    repeat split; try lia; assumption.
Qed.

Lemma stamped_inv_setState (r g : Z) (cb : CircuitBreaker) (p : list Z)
      (s : State) (now : Time.t) :
  stamped_inv r g cb p -> 0 <= r -> g < 2 ^ 64 - 1 ->
  stamped_inv r (g + 1) (after (CB.setState s now cb)) p.
Proof.
  intros H Hr Hb. rewrite setState_eq.
  destruct (State_eqb (state cb) s); cbn [after].
  - apply (stamped_inv_weaken r g _ _ cb p); try lia; try assumption.
    apply H.
  - now apply stamped_inv_fresh.
Qed.

Lemma stamped_inv_resolve (r g : Z) (cb : CircuitBreaker) (p : list Z)
      (now : Time.t) :
  stamped_inv r g cb p -> 0 <= r -> g < 2 ^ 64 - 1 ->
  stamped_inv r (g + 1) (after (CB.currentState now cb)) p
  /\ value (CB.currentState now cb)
     = (state (after (CB.currentState now cb)),
        generation (after (CB.currentState now cb))).
Proof.
  intros H Hr Hb. split; [|apply currentState_value].
  rewrite currentState_eq. unfold resolve.
  assert (Hsame : stamped_inv r (g + 1) cb p).
  { apply (stamped_inv_weaken r g _ _ cb p); try lia; try assumption.
    apply H. }
  destruct (due now cb); [destruct (state cb)|]; cbn [after];
    try assumption; now apply stamped_inv_fresh.
Qed.

Lemma stamped_inv_relax (r g r' g' : Z) (cb : CircuitBreaker) (p : list Z) :
  stamped_inv r g cb p -> r <= r' -> g <= g' -> stamped_inv r' g' cb p.
Proof.
  intros H Hr Hg.
  apply (stamped_inv_weaken r g r' g' cb p); try assumption; try lia.
  apply H.
Qed.

Lemma stamped_inv_report (r g : Z) (cb : CircuitBreaker) (p : list Z)
      (i : nat) (success : bool) (s : State) (now : Time.t) :
  stamped_inv r g cb p -> 0 <= r < 2 ^ 32 - 1 -> g < 2 ^ 64 - 1 ->
  nth_error p i = Some (generation cb) ->
  stamped_inv r (g + 1)
    (after (if success then CB.onSuccess s now cb
            else CB.onFailure s now cb))
    (without i p).
Proof.
  intros H Hr Hg Hn.
  pose proof (stamped_inv_outcome r g cb p i success H (proj2 Hr) Hn) as Hc.
  assert (Hc1 := stamped_inv_relax r g r (g + 1) _ _ Hc).
  assert (Hd1 := stamped_inv_relax r g r (g + 1) _ _
                   (stamped_inv_drop r g cb p i H)).
  destruct success; destruct s;
    unfold CB.onSuccess, CB.onFailure, bind, get, modify, ret;
    cbn [value after fired counts with_counts maxRequests readyToTrip];
    try (apply Hc1; lia); try (apply Hd1; lia).
  - destruct (maxRequests cb <=? _); [|cbn; apply Hc1; lia].
    pose proof (stamped_inv_setState r g _ _ StateClosed now Hc
                  (proj1 Hr) Hg) as Hs.
    destruct (CB.setState StateClosed now _). exact Hs.
  - destruct (readyToTrip cb _); [|cbn; apply Hc1; lia].
    pose proof (stamped_inv_setState r g _ _ StateOpen now Hc
                  (proj1 Hr) Hg) as Hs.
    destruct (CB.setState StateOpen now _). exact Hs.
  - pose proof (stamped_inv_setState r g _ _ StateOpen now
                  (stamped_inv_drop r g cb p i H) (proj1 Hr) Hg) as Hs.
    exact Hs.
Qed.

Lemma stamped_step_ok (c : call) (n : Z) (cb : CircuitBreaker)
      (p : list Z) :
  stamped_ok n cb p -> 0 <= n -> n + 1 < 2 ^ 32 ->
  stamped_ok (n + 1) (fst (stamped_step c cb p)) (snd (stamped_step c cb p)).
Proof.
  unfold stamped_ok. intros H Hn Hb.
  assert (Hres : forall now,
             stamped_inv n (2 * n + 1 + 1) (after (CB.currentState now cb)) p
             /\ value (CB.currentState now cb)
                = (state (after (CB.currentState now cb)),
                   generation (after (CB.currentState now cb)))).
  { intros now. apply stamped_inv_resolve; [assumption | lia | lia]. }
  destruct c as [now | i success now | now]; unfold stamped_step.
  - destruct (Hres now) as [Hr Hv].
    unfold CB.beforeRequest, bind, get, ret, modify.
    destruct (CB.currentState now cb) as [sg cb1 l1].
    cbn [after value] in Hr, Hv. subst sg. cbn [fst snd].
    destruct (State_eqb (state cb1) StateOpen); cbn [value after fst snd].
    + apply (stamped_inv_relax _ _ _ _ _ _ Hr); lia.
    + destruct (State_eqb (state cb1) StateHalfOpen
                && (maxRequests cb1 <=? Requests (counts cb1)));
        cbn [value after fst snd].
      * apply (stamped_inv_relax _ _ _ _ _ _ Hr); lia.
      * apply (stamped_inv_relax (n + 1) (2 * n + 1 + 1)); try lia.
        apply stamped_inv_admit; [assumption | lia].
  - destruct (nth_error p i) as [b|] eqn:Hnth; cbn [fst snd].
    + destruct (Hres now) as [Hr Hv].
      unfold CB.afterRequest, bind.
      destruct (CB.currentState now cb) as [sg cb1 l1].
      cbn [after value] in Hr, Hv. subst sg. cbn [fst snd].
      destruct (generation cb1 =? b) eqn:E; cbn [negb ret after].
      * apply Z.eqb_eq in E. subst b.
        pose proof (stamped_inv_report n (2 * n + 1 + 1) cb1 p i success
                      (state cb1) now Hr) as Hrep.
        destruct success.
        -- destruct (CB.onSuccess (state cb1) now cb1) eqn:Eo.
           cbn [after] in *.
           apply (stamped_inv_relax n (2 * n + 1 + 1 + 1)); try lia.
           apply Hrep; [lia | lia | assumption].
        -- destruct (CB.onFailure (state cb1) now cb1) eqn:Eo.
           cbn [after] in *.
           apply (stamped_inv_relax n (2 * n + 1 + 1 + 1)); try lia.
           apply Hrep; [lia | lia | assumption].
      * apply (stamped_inv_relax n (2 * n + 1 + 1)); try lia.
        now apply stamped_inv_drop.
    + apply (stamped_inv_relax _ _ _ _ _ _ H); lia.
  - destruct (Hres now) as [Hr _].
    unfold CB.State, bind, ret.
    destruct (CB.currentState now cb) as [sg cb1 l1].
    cbn [after fst snd] in *.
    apply (stamped_inv_relax _ _ _ _ _ _ Hr); lia.
Qed.

Lemma stamped_run_ok (calls : list call) :
  forall (n : Z) (cb : CircuitBreaker) (p : list Z),
    stamped_ok n cb p -> 0 <= n ->
    n + Z.of_nat (List.length calls) < 2 ^ 32 ->
    stamped_ok (n + Z.of_nat (List.length calls))
               (fst (stamped_run calls cb p)) (snd (stamped_run calls cb p)).
Proof.
  induction calls as [|c rest IH]; intros n cb p H Hn Hlen.
  - cbn. now rewrite Z.add_0_r.
  - cbn [List.length stamped_run] in *. rewrite Nat2Z.inj_succ in *.
    replace (n + Z.succ (Z.of_nat (List.length rest)))
      with (n + 1 + Z.of_nat (List.length rest)) by lia.
    apply IH; [apply stamped_step_ok; [assumption | lia | lia] | lia | lia].
Qed.

(** X16: when every report is stamped with the generation in which its
    request was admitted (the value [beforeRequest] returns, handed to
    [afterRequest]), the outcomes counted never exceed the requests counted:
    after any sequence of fewer than 2^32 admissions, stamped reports and
    state reads on a new breaker,
    [TotalSuccesses + TotalFailures <= Requests], and the difference covers
    the pending requests of the current generation. *)
Theorem stamped_reports_keep_counts_bound
  (st : Config) (t0 : Time.t) (calls : list call) :
  Z.of_nat (List.length calls) < 2 ^ 32 ->
  let cb := fst (stamped_run calls (NewCircuitBreaker st t0) []) in
  let pending := snd (stamped_run calls (NewCircuitBreaker st t0) []) in
  TotalSuccesses (counts cb) + TotalFailures (counts cb)
  + Z.of_nat (count_occ Z.eq_dec pending (generation cb))
  <= Requests (counts cb).
Proof.
  intros Hlen cb pending.
  assert (H0 : stamped_ok 0 (NewCircuitBreaker st t0) []).
  { unfold stamped_ok, stamped_inv, NewCircuitBreaker. rewrite reset_eq.
    cbn. change (uint64_inc 0) with 1.
    repeat split; try lia. constructor. }
  pose proof (stamped_run_ok calls 0 _ _ H0) as H.
  cbn [Z.add] in H. fold cb pending in H.
  destruct H as (_ & _ & H & _); [lia | assumption | exact H].
Qed.

Lemma stamped_reports_keep_counts_bound_witness :
  Z.of_nat (List.length overlapping_stamped_requests) < 2 ^ 32
  /\ (let cb := fst (stamped_run overlapping_stamped_requests
                                 (NewCircuitBreaker sample_config t0) []) in
      TotalSuccesses (counts cb) + TotalFailures (counts cb)
      <= Requests (counts cb)).
Proof.
  split; [reflexivity|]. cbv zeta.
  pose proof (stamped_reports_keep_counts_bound
                sample_config t0 overlapping_stamped_requests eq_refl) as H.
  cbv zeta in H. lia.
Defined.

(** ** Recovery *)

Lemma probe_succeeds (p : Time.t * Time.t) (k : Z) (cb : CircuitBreaker) :
  state cb = StateHalfOpen ->
  counts cb = mkCounts k k 0 k 0 ->
  0 <= k < maxRequests cb -> maxRequests cb < 2 ^ 32 ->
  let cb' := exec (succeeding_requests [p]) cb in
  if maxRequests cb <=? k + 1
  then state cb' = StateClosed /\ counts cb' = mkCounts 0 0 0 0 0
  else state cb' = StateHalfOpen
       /\ counts cb' = mkCounts (k + 1) (k + 1) 0 (k + 1) 0
       /\ maxRequests cb' = maxRequests cb.
Proof.
  intros Hs Hc Hk Hm cb'. unfold cb', exec, succeeding_requests.
  cbn [flat_map app]. rewrite !run_cons. cbn [run ret after].
  assert (H1 : after (step (OpBeforeRequest (fst p)) cb)
               = with_counts (Counts_onRequest (counts cb)) cb).
  { unfold step, bind. rewrite beforeRequest_half_open by assumption.
    rewrite Hc. cbn [Requests].
    assert (E : (maxRequests cb <=? k) = false) by (apply Z.leb_gt; lia).
    rewrite E. reflexivity. }
  rewrite H1.
  set (cb1 := with_counts (Counts_onRequest (counts cb)) cb).
  assert (Hd1 : due (snd p) cb1 = false)
    by (unfold due, cb1; cbn; now rewrite Hs).
  pose proof (report_not_due true (snd p) cb1 Hd1) as Hok. cbn iota in Hok.
  unfold step, bind. rewrite Hok.
  unfold cb1. cbn [state with_counts]. rewrite Hs.
  unfold CB.onSuccess, bind, get, modify.
  cbn [counts with_counts maxRequests value after fired].
  rewrite Hc.
  cbn [Counts_onRequest Counts_onSuccess ConsecutiveFailures Requests
       TotalSuccesses TotalFailures ConsecutiveSuccesses].
  rewrite !uint32_inc_small by lia.
  destruct (maxRequests cb <=? k + 1).
  - rewrite setState_eq. cbn [state with_counts]. rewrite Hs. cbn.
    split; reflexivity.
  - cbn. split; [assumption|]. split; [|reflexivity].
    unfold Counts_onSuccess, Counts_onRequest. cbn.
    rewrite !uint32_inc_small by lia. reflexivity.
Qed.

Lemma probes_succeed (nows : list (Time.t * Time.t)) :
  forall (k : Z) (cb : CircuitBreaker),
    state cb = StateHalfOpen ->
    counts cb = mkCounts k k 0 k 0 -> 0 <= k ->
    k + Z.of_nat (List.length nows) < maxRequests cb ->
    maxRequests cb < 2 ^ 32 ->
    let n := k + Z.of_nat (List.length nows) in
    let cb' := exec (succeeding_requests nows) cb in
    state cb' = StateHalfOpen
    /\ counts cb' = mkCounts n n 0 n 0
    /\ maxRequests cb' = maxRequests cb.
Proof.
  induction nows as [|p rest IH]; intros k cb Hs Hc Hk Hn Hm.
  - cbn. rewrite Z.add_0_r. repeat split; assumption.
  - cbn [List.length] in Hn. rewrite Nat2Z.inj_succ in Hn.
    pose proof (probe_succeeds p k cb Hs Hc) as H1. cbv zeta in H1.
    assert (E : (maxRequests cb <=? k + 1) = false) by (apply Z.leb_gt; lia).
    rewrite E in H1. destruct H1 as (Hs1 & Hc1 & Hm1); [lia | lia |].
    change (succeeding_requests (p :: rest))
      with (succeeding_requests [p] ++ succeeding_requests rest).
    cbv zeta. rewrite exec_app.
    destruct (IH (k + 1) _ Hs1 Hc1) as (A & B & C);
      [lia | rewrite Hm1; lia | rewrite Hm1; lia |].
    cbn [List.length]. rewrite Nat2Z.inj_succ.
    replace (k + Z.succ (Z.of_nat (List.length rest)))
      with (k + 1 + Z.of_nat (List.length rest)) by lia.
    repeat split; try assumption. now rewrite C.
Qed.

Lemma succeeding_requests_app (a b : list (Time.t * Time.t)) :
  succeeding_requests (a ++ b)
  = succeeding_requests a ++ succeeding_requests b.
Proof. unfold succeeding_requests. apply flat_map_app. Qed.

(** X17: a breaker that has just become half-open (all counts zero) with
    [1 <= maxRequests < 2^32] stays half-open while fewer than [maxRequests]
    probes have been admitted and reported successful one after the other,
    at whatever instants, counting each of them; the success of probe number
    [maxRequests] closes it and clears the counts. *)
Theorem half_open_closes_after_max_requests_successes
  (cb : CircuitBreaker) (nows : list (Time.t * Time.t))
  (p : Time.t * Time.t) :
  state cb = StateHalfOpen ->
  counts cb = mkCounts 0 0 0 0 0 ->
  maxRequests cb < 2 ^ 32 ->
  Z.of_nat (List.length nows) + 1 = maxRequests cb ->
  let n := Z.of_nat (List.length nows) in
  let before := exec (succeeding_requests nows) cb in
  let closed := exec (succeeding_requests (nows ++ [p])) cb in
  state before = StateHalfOpen
  /\ counts before = mkCounts n n 0 n 0
  /\ state closed = StateClosed
  /\ counts closed = mkCounts 0 0 0 0 0.
Proof.
  intros Hs Hc Hm Hn n before closed.
  destruct (probes_succeed nows 0 cb Hs Hc) as (A & B & C);
    [lia | lia | assumption |].
  cbn [Z.add] in B. fold n in B. fold before in A, B, C.
  split; [exact A|]. split; [exact B|].
  unfold closed. rewrite succeeding_requests_app, exec_app. fold before.
  pose proof (probe_succeeds p n before A B) as H1. cbv zeta in H1.
  assert (E : (maxRequests before <=? n + 1) = true)
    by (apply Z.leb_le; rewrite C; unfold n; lia).
  rewrite E in H1. apply H1; rewrite C; unfold n; lia.
Qed.

Lemma half_open_closes_after_max_requests_successes_witness :
  let nows := [(t0 + 3 * Second, t0 + 4 * Second)] in
  let p := (t0 + 5 * Second, t0 + 6 * Second) in
  state sample_half_open = StateHalfOpen
  /\ counts sample_half_open = mkCounts 0 0 0 0 0
  /\ maxRequests sample_half_open < 2 ^ 32
  /\ Z.of_nat (List.length nows) + 1 = maxRequests sample_half_open
  /\ state (exec (succeeding_requests nows) sample_half_open) = StateHalfOpen
  /\ state (exec (succeeding_requests (nows ++ [p])) sample_half_open)
     = StateClosed.
Proof.
  cbv zeta.
  split; [reflexivity|]. split; [reflexivity|]. split; [reflexivity|].
  split; [reflexivity|].
  destruct (half_open_closes_after_max_requests_successes
              sample_half_open [(t0 + 3 * Second, t0 + 4 * Second)]
              (t0 + 5 * Second, t0 + 6 * Second)
              eq_refl eq_refl eq_refl eq_refl)
    as (A & _ & C & _).
  split; [exact A | exact C].
Defined.
